(** * Helmsman desired-state validation and target resolution

    A shallow embedding of [internal/app/state.go]: the desired-state
    document, the defaults resolver ([setDefaults]), the validation pipeline
    ([validate], [isValidCert]), the chart validator
    ([validateReleaseCharts]) and target resolution ([makeTargetMap],
    [disableUntargettedApps]).

    Conventions.
    - A Go [map[string]V] is [option (gmap string V)]: [None] is the nil
      map, [Some m] an allocated one.  [len], lookup and [range] treat nil
      as empty; only [== nil] tells the two apart.
    - [map[string]*T] is modelled with value semantics: every key owns its
      entry (documents come out of the deserialiser that way), so a method
      called on [s.Apps[k]] is an update of the entry at [k].
    - [range] over a map visits the entries in an unspecified order.  The
      loops below run over [map_to_list]; the results that are stated are
      lookups, existence statements or are proved for every order.
    - Library and operating-system calls ([url.ParseRequestURI], [os.Stat])
      and the functions of the package that live in other files are fields
      of the record [Env]. *)

From stdpp Require Import gmap strings list fin_maps sorting.
From Stdlib Require Import ZArith.

Open Scope string_scope.

(** ** Go maps *)

Module GoMap.

(** The entries of a map, nil read as empty. *)
Definition entries {V} (m : option (gmap string V)) : gmap string V :=
  default ∅ m.

(** [m == nil] *)
Definition is_nil {V} (m : option (gmap string V)) : bool :=
  match m with None => true | Some _ => false end.

(** [len(m)] *)
Definition len {V} (m : option (gmap string V)) : nat := size (entries m).

(** [v, ok := m[k]] as an option. *)
Definition get {V} (m : option (gmap string V)) (k : string) : option V :=
  entries m !! k.

(** [for k, v := range m], in one of the orders Go may pick. *)
Definition range {V} (m : option (gmap string V)) : list (string * V) :=
  map_to_list (entries m).

End GoMap.

(** [strings.HasPrefix(s, prefix)] *)
Definition HasPrefix (s pre : string) : bool := String.prefix pre s.

(** ** Data model *)

(** The value of a lifecycle hook is an [interface{}] that this file never
    inspects; it is kept as the scalar it was read from. *)
Definition hookValue := string.

(** [type config struct] *)
Record config := mkConfig {
  KubeContext : string;
  Username : string;
  Password : string;
  ClusterURI : string;
  ServiceAccount : string;
  StorageBackend : string;
  SlackWebhook : string;
  ReverseDelete : bool;
  BearerToken : bool;
  BearerTokenPath : string;
  EyamlEnabled : bool;
  EyamlPrivateKeyPath : string;
  EyamlPublicKeyPath : string;
  GlobalHooks : option (gmap string hookValue);
  GlobalMaxHistory : Z
}.

(** Modelled from the spec: the [namespace] type is declared in another
    file.  A namespace "carries at minimum an enabled/disabled flag". *)
Record namespace := mkNamespace {
  nsDisabled : bool
}.

(** Modelled from the spec: the [release] type is declared in another file.
    A release has a "name (defaults to its document key), target namespace,
    group label, chart identity (name + version), enabled/disabled flag, and
    per-release hook/history overrides (absent = inherit global)".  The
    field names are the ones [state.go] reads. *)
Record release := mkRelease {
  Name : string;
  Namespace : string;
  Group : string;
  Chart : string;
  Version : string;
  Enabled : bool;
  Hooks : option (gmap string hookValue);
  MaxHistory : Z
}.

(** [type state struct] *)
Record state := mkState {
  Metadata : option (gmap string string);
  Certificates : option (gmap string string);
  Settings : config;
  Context : string;
  Namespaces : option (gmap string namespace);
  HelmRepos : option (gmap string string);
  PreconfiguredHelmRepos : list string;
  Apps : option (gmap string release);
  AppsTemplates : option (gmap string release);
  TargetMap : option (gmap string bool)
}.

(** The duplicate tracker [map[string]map[string]bool] of [validate]. *)
Definition dupTracker := gmap string (gmap string bool).

(** What [state.go] calls but does not define. *)
Record Env := mkEnv {
  (** [url.ParseRequestURI(v)] returned a nil error *)
  parseRequestURI : string → bool;
  (** [os.Stat(path)] returned a nil error *)
  stat : string → bool;
  (** [getKubeContext()] *)
  getKubeContext : bool;
  (** [flags.nsOverride] *)
  nsOverride : string;
  (** the constant [defaultContextName] *)
  defaultContextName : string;
  (** [validateHooks(hooks)] *)
  validateHooks : option (gmap string hookValue) → bool * string;
  (** [r.validate(appLabel, names, s)]: the error, if any, and the tracker
      as the call leaves it *)
  releaseValidate : release → string → dupTracker → state → option string * dupTracker;
  (** [validateChart(apps, chart, version, c)]: the one string the probe
      sends on [c], empty on success *)
  validateChart : string → string → string → string
}.

(** ** isValidCert *)

Definition isValidCert (E : Env) (value : string) : bool * string :=
  let err1 := negb (parseRequestURI E value) in
  let err2 := negb (stat E value) in
  if err2 && (err1 || (negb (HasPrefix value "s3://")
                       && negb (HasPrefix value "gs://")
                       && negb (HasPrefix value "az://")))
  then (false, "")
  else (true, value).

(** One of the recognised bucket prefixes. *)
Definition hasBucketPrefix (value : string) : bool :=
  HasPrefix value "s3://" || HasPrefix value "gs://" || HasPrefix value "az://".

(** ** Field updates *)

Definition withStorageBackend (v : string) (c : config) : config :=
  mkConfig (KubeContext c) (Username c) (Password c) (ClusterURI c)
    (ServiceAccount c) v (SlackWebhook c) (ReverseDelete c) (BearerToken c)
    (BearerTokenPath c) (EyamlEnabled c) (EyamlPrivateKeyPath c)
    (EyamlPublicKeyPath c) (GlobalHooks c) (GlobalMaxHistory c).

Definition withName (v : string) (r : release) : release :=
  mkRelease v (Namespace r) (Group r) (Chart r) (Version r) (Enabled r)
    (Hooks r) (MaxHistory r).

Definition withEnabled (v : bool) (r : release) : release :=
  mkRelease (Name r) (Namespace r) (Group r) (Chart r) (Version r) v
    (Hooks r) (MaxHistory r).

Definition withHooks (v : option (gmap string hookValue)) (r : release) : release :=
  mkRelease (Name r) (Namespace r) (Group r) (Chart r) (Version r) (Enabled r)
    v (MaxHistory r).

Definition withMaxHistory (v : Z) (r : release) : release :=
  mkRelease (Name r) (Namespace r) (Group r) (Chart r) (Version r) (Enabled r)
    (Hooks r) v.

Definition withSettings (v : config) (s : state) : state :=
  mkState (Metadata s) (Certificates s) v (Context s) (Namespaces s)
    (HelmRepos s) (PreconfiguredHelmRepos s) (Apps s) (AppsTemplates s)
    (TargetMap s).

Definition withContext (v : string) (s : state) : state :=
  mkState (Metadata s) (Certificates s) (Settings s) v (Namespaces s)
    (HelmRepos s) (PreconfiguredHelmRepos s) (Apps s) (AppsTemplates s)
    (TargetMap s).

Definition withCertificates (v : option (gmap string string)) (s : state) : state :=
  mkState (Metadata s) v (Settings s) (Context s) (Namespaces s)
    (HelmRepos s) (PreconfiguredHelmRepos s) (Apps s) (AppsTemplates s)
    (TargetMap s).

Definition withNamespaces (v : option (gmap string namespace)) (s : state) : state :=
  mkState (Metadata s) (Certificates s) (Settings s) (Context s) v
    (HelmRepos s) (PreconfiguredHelmRepos s) (Apps s) (AppsTemplates s)
    (TargetMap s).

Definition withApps (v : option (gmap string release)) (s : state) : state :=
  mkState (Metadata s) (Certificates s) (Settings s) (Context s) (Namespaces s)
    (HelmRepos s) (PreconfiguredHelmRepos s) v (AppsTemplates s)
    (TargetMap s).

Definition withTargetMap (v : option (gmap string bool)) (s : state) : state :=
  mkState (Metadata s) (Certificates s) (Settings s) (Context s) (Namespaces s)
    (HelmRepos s) (PreconfiguredHelmRepos s) (Apps s) (AppsTemplates s) v.

(** ** Loops that update a map's entries through their pointers *)

(** [for k, v := range m { *v = f(k, *v) }] *)
Definition updateEach {V} (f : string → V → V) (m : gmap string V) : gmap string V :=
  foldl (λ acc kv, <[kv.1 := f kv.1 kv.2]> acc) m (map_to_list m).

(** The same loop on a map that may be nil: ranging over nil does nothing. *)
Definition rangeUpdate {V} (f : string → V → V) (m : option (gmap string V))
  : option (gmap string V) :=
  updateEach f <$> m.

(** ** setDefaults *)

(** Modelled from the spec: [inheritHooks] is defined in another file.  It
    "fills the release's corresponding field from the global Settings value
    only if the release's own field is unset/zero; an explicitly-set
    release-level value always wins". *)
Definition inheritHooks (s : state) (r : release) : release :=
  if decide (GoMap.len (Hooks r) = 0)
  then withHooks (GlobalHooks (Settings s)) r
  else r.

(** Modelled from the spec: [inheritMaxHistory] is defined in another file;
    the same rule on the history limit. *)
Definition inheritMaxHistory (s : state) (r : release) : release :=
  if decide (MaxHistory r = 0%Z)
  then withMaxHistory (GlobalMaxHistory (Settings s)) r
  else r.

(** The process environment, written by [os.Setenv]. *)
Definition processEnv := gmap string string.

(** The body of the loop over [s.Apps]. *)
Definition setDefaultsApp (s : state) (name : string) (r : release) : release :=
  let r := if decide (Name r = "") then withName name r else r in
  let r := inheritHooks s r in
  inheritMaxHistory s r.

Definition setDefaults (E : Env) (s : state) (penv : processEnv)
  : state * processEnv :=
  let '(s, penv) :=
    if decide (StorageBackend (Settings s) ≠ "")
    then (s, <["HELM_DRIVER" := StorageBackend (Settings s)]> penv)
    else (withSettings (withStorageBackend "secret" (Settings s)) s, penv) in
  let s :=
    if decide (Context s = "") then withContext (defaultContextName E) s else s in
  (withApps (rangeUpdate (setDefaultsApp s) (Apps s)) s, penv).

(** ** validate *)

(** How a call of [validate] ends. *)
Inductive outcome :=
  | Exit (code : Z)       (** [os.Exit(code)]: the process ends inside the call *)
  | Error (msg : string)  (** a non-nil error is returned *)
  | Ok.                   (** [nil] is returned *)

(** [reflect.DeepEqual(c, config{})]: every field has its zero value; a nil
    map and an allocated empty map are not deeply equal. *)
Definition isZeroConfig (c : config) : bool :=
  bool_decide (KubeContext c = "") && bool_decide (Username c = "")
  && bool_decide (Password c = "") && bool_decide (ClusterURI c = "")
  && bool_decide (ServiceAccount c = "") && bool_decide (StorageBackend c = "")
  && bool_decide (SlackWebhook c = "") && negb (ReverseDelete c)
  && negb (BearerToken c) && bool_decide (BearerTokenPath c = "")
  && negb (EyamlEnabled c) && bool_decide (EyamlPrivateKeyPath c = "")
  && bool_decide (EyamlPublicKeyPath c = "") && GoMap.is_nil (GlobalHooks c)
  && bool_decide (GlobalMaxHistory c = 0%Z).

(** The first settings check: a kube context can be determined. *)
Definition checkKubeContext (E : Env) (s : state) : option string :=
  if (isZeroConfig (Settings s) || bool_decide (KubeContext (Settings s) = ""))
     && negb (getKubeContext E)
  then Some ("settings validation failed -- you have not defined a "
             +:+ "kubeContext to use. Either define it in the desired state file or pass a kubeconfig with --kubeconfig to use an existing context")
  else None.

(** The checks on the cluster connection settings. *)
Definition checkCluster (E : Env) (s : state) : option string :=
  let c := Settings s in
  if bool_decide (ClusterURI c ≠ "") then
    if negb (parseRequestURI E (ClusterURI c)) then
      Some "settings validation failed -- clusterURI must have a valid URL set in an env variable or passed directly. Either the env var is missing/empty or the URL is invalid"
    else if bool_decide (KubeContext c = "") then
      Some "settings validation failed -- KubeContext needs to be provided in the settings stanza"
    else if negb (BearerToken c) && bool_decide (Username c = "") then
      Some "settings validation failed -- username needs to be provided in the settings stanza"
    else if negb (BearerToken c) && bool_decide (Password c = "") then
      Some "settings validation failed -- password needs to be provided (directly or from env var) in the settings stanza"
    else if BearerToken c && bool_decide (BearerTokenPath c ≠ "")
            && negb (stat E (BearerTokenPath c)) then
      Some ("settings validation failed -- bearer token path " +:+ BearerTokenPath c
            +:+ " is not found. The path has to be relative to the desired state file")
    else None
  else if BearerToken c && bool_decide (ClusterURI c = "") then
    Some "settings validation failed -- bearer token is enabled but no cluster URI provided"
  else None.

(** Lifecycle hooks.  The validator's message becomes the error text (it is
    passed to [fmt.Errorf] as the format, without arguments). *)
Definition checkHooks (E : Env) (s : state) : option string :=
  if bool_decide (GoMap.len (GlobalHooks (Settings s)) ≠ 0) then
    let '(ok, errorMsg) := validateHooks E (GlobalHooks (Settings s)) in
    if negb ok then Some errorMsg else None
  else None.

Definition checkSlackWebhook (E : Env) (s : state) : option string :=
  if bool_decide (SlackWebhook (Settings s) ≠ "")
     && negb (parseRequestURI E (SlackWebhook (Settings s)))
  then Some "settings validation failed -- slackWebhook must be a valid URL"
  else None.

(** The loop over [s.Certificates]: every value is checked and written back;
    the first invalid one ends the loop with an error.  The map is returned
    as the loop leaves it. *)
Fixpoint validateCertEntries (E : Env) (l : list (string * string))
    (certs : gmap string string) : gmap string string * option string :=
  match l with
  | [] => (certs, None)
  | (key, value) :: l =>
      let '(r, path) := isValidCert E value in
      if negb r then
        (certs, Some ("certifications validation failed -- [ " +:+ key
                      +:+ " ] must be a valid S3, GCS, AZ bucket/container URL or a valid relative file path"))
      else validateCertEntries E l (<[key := path]> certs)
  end.

(** The certificates stage; the state comes back with the rewritten map. *)
Definition checkCertificates (E : Env) (s : state) : state * option string :=
  if negb (GoMap.is_nil (Certificates s))
     && bool_decide (GoMap.len (Certificates s) ≠ 0) then
    let '(certs, err) :=
      validateCertEntries E (GoMap.range (Certificates s))
        (GoMap.entries (Certificates s)) in
    let s := withCertificates (Some certs) s in
    match err with
    | Some msg => (s, Some msg)
    | None =>
        let caCrt := bool_decide (is_Some (certs !! "caCrt")) in
        let caKey := bool_decide (is_Some (certs !! "caKey")) in
        if bool_decide (ClusterURI (Settings s) ≠ "") && negb (BearerToken (Settings s)) then
          if negb caCrt || negb caKey then
            (s, Some ("certificates validation failed -- connection to cluster is required "
                      +:+ "but no cert/key was given. Please add [caCrt] and [caKey] under Certifications. You might also need to provide [clientCrt]"))
          else (s, None)
        else if bool_decide (ClusterURI (Settings s) ≠ "") && BearerToken (Settings s) then
          if negb caCrt then
            (s, Some ("certificates validation failed -- cluster connection with bearer token is enabled but "
                      +:+ "[caCrt] is missing. Please provide [caCrt] in the Certifications stanza"))
          else (s, None)
        else (s, None)
    end
  else
    if bool_decide (ClusterURI (Settings s) ≠ "") then
      (s, Some "certificates validation failed -- kube context setup is required but no certificates stanza provided")
    else (s, None).

Definition checkEyaml (s : state) : option string :=
  let priv := EyamlPrivateKeyPath (Settings s) in
  let pub := EyamlPublicKeyPath (Settings s) in
  if (bool_decide (priv ≠ "") && bool_decide (pub = ""))
     || (bool_decide (priv = "") && bool_decide (pub ≠ ""))
  then Some "both EyamlPrivateKeyPath and EyamlPublicKeyPath are required"
  else None.

Definition checkNamespaces (E : Env) (s : state) : option string :=
  if bool_decide (nsOverride E = "") then
    if GoMap.is_nil (Namespaces s) || bool_decide (GoMap.len (Namespaces s) = 0)
    then Some "namespaces validation failed -- at least one namespace is required"
    else None
  else None.

(** The loop over [s.HelmRepos]. *)
Fixpoint checkRepos (E : Env) (l : list (string * string)) : option string :=
  match l with
  | [] => None
  | (k, v) :: l =>
      if negb (parseRequestURI E v)
      then Some ("repos validation failed -- repo [" +:+ k +:+ " ] " +:+ "must have a valid URL")
      else checkRepos E l
  end.

(** The loop over [s.Apps], threading the duplicate tracker [names]. *)
Fixpoint checkApps (E : Env) (s : state) (l : list (string * release))
    (names : dupTracker) : option string :=
  match l with
  | [] => None
  | (appLabel, r) :: l =>
      match releaseValidate E r appLabel names s with
      | (Some err, _) =>
          Some ("apps validation failed -- for app [" +:+ appLabel +:+ " ]. " +:+ err)
      | (None, names) => checkApps E s l names
      end
  end.

(** [check e in s ;; k]: return the error of [e] if it has one, else go on. *)
Notation "'check' e 'in' s ;; k" :=
  (match e with Some msg => (s, Error msg) | None => k end)
  (at level 10, e at level 10, s at level 0, k at level 200,
   format "'[v' 'check'  e  'in'  s  ;; '/' k ']'").

Definition validate (E : Env) (s : state) : state * outcome :=
  if GoMap.is_nil (Apps s) then (s, Exit 0) else
  check checkKubeContext E s in s ;;
  check checkCluster E s in s ;;
  check checkHooks E s in s ;;
  check checkSlackWebhook E s in s ;;
  let '(s, err) := checkCertificates E s in
  check err in s ;;
  check checkEyaml s in s ;;
  check checkNamespaces E s in s ;;
  check checkRepos E (GoMap.range (HelmRepos s)) in s ;;
  check checkApps E s (GoMap.range (Apps s)) ∅ in s ;;
  (s, Ok).

(** ** validateReleaseCharts *)

(** Modelled from the spec: [isConsideredToRun] is defined in another file.
    "Considered to run: a release that is currently enabled". *)
Definition isConsideredToRun (r : release) : bool := Enabled r.

(** [strings.Join(elems, sep)] *)
Definition Join (elems : list string) (sep : string) : string :=
  String.concat sep elems.

(** One step of the first loop: file [app] under its chart and version. *)
Definition addChart (charts : gmap string (gmap string (list string)))
    (entry : string * release) : gmap string (gmap string (list string)) :=
  let '(app, r) := entry in
  if negb (isConsideredToRun r) then charts
  else
    let versions : gmap string (list string) := default ∅ (charts !! Chart r) in
    let apps : list string := default [] (versions !! Version r) in
    <[Chart r := <[Version r := (apps ++ [app])%list]> versions]> charts.

(** The first loop, over the releases in the order [l]. *)
Definition groupCharts (l : list (string * release))
  : gmap string (gmap string (list string)) :=
  foldl addChart ∅ l.

(** A probe to launch: the joined release names, the chart, the version. *)
Definition chartTask : Type := string * string * string.

(** The second loop: one task per chart and version. *)
Definition chartTasks (charts : gmap string (gmap string (list string)))
  : list chartTask :=
  '(chart, versions) ← map_to_list charts;
  '(version, apps) ← map_to_list versions;
  [(Join apps ", ", chart, version)].

(** What a task sends on the result channel. *)
Definition runTask (E : Env) (t : chartTask) : string :=
  let '(apps, chart, version) := t in validateChart E apps chart version.

(** The loop that drains the channel after [wg.Wait()] and [close(c)]. *)
Definition drain (queue : list string) : bool :=
  foldl (λ fail err, if bool_decide (err ≠ "") then true else fail) false queue.

(** The returned error. *)
Definition chartsResult (fail : bool) : option string :=
  if fail then Some "chart validation failed" else None.

(** One execution: releases visited in [map_to_list] order, results read in
    the order the tasks were launched. *)
Definition validateReleaseCharts (E : Env) (s : state) : option string :=
  let tasks := chartTasks (groupCharts (GoMap.range (Apps s))) in
  chartsResult (drain (runTask E <$> tasks)).

(** Every execution.  The releases are visited in some order [visit]; the
    tasks are launched in some order [tasks]; each sends one string, and
    after the join the channel holds these strings in some order [queue].
    The channel has room for [len(s.Apps)] strings.  The semaphore [sem]
    bounds how many probes run at a time, not which probes run. *)
Record chartsRun (E : Env) (s : state) := mkChartsRun {
  visit : list (string * release);
  tasks : list chartTask;
  queue : list string;
  visit_order : visit ≡ₚ GoMap.range (Apps s);
  tasks_order : tasks ≡ₚ chartTasks (groupCharts visit);
  queue_order : queue ≡ₚ runTask E <$> tasks
}.
Arguments visit {E s} _.
Arguments tasks {E s} _.
Arguments queue {E s} _.

(** The error an execution returns. *)
Definition runResult {E s} (run : chartsRun E s) : option string :=
  chartsResult (drain (queue run)).

(** The execution that [validateReleaseCharts] computes. *)
Definition canonicalRun (E : Env) (s : state) : chartsRun E s :=
  mkChartsRun E s (GoMap.range (Apps s))
    (chartTasks (groupCharts (GoMap.range (Apps s))))
    (runTask E <$> chartTasks (groupCharts (GoMap.range (Apps s))))
    (reflexivity _) (reflexivity _) (reflexivity _).

(** [charts[chart][version]], read through both levels. *)
Definition chartApps (charts : gmap string (gmap string (list string)))
    (chart version : string) : option (list string) :=
  charts !! chart ≫= λ versions, versions !! version.

(** The release [entry] runs, with chart [chart] at version [version]. *)
Definition runsWith (chart version : string) (entry : string * release) : Prop :=
  isConsideredToRun entry.2 = true ∧ Chart entry.2 = chart
  ∧ Version entry.2 = version.

#[global] Instance runsWith_dec chart version entry :
  Decision (runsWith chart version entry).
Proof. unfold runsWith. apply _. Defined.

(** The keys of the releases of [l] that run with the given chart and
    version, in the order of [l]. *)
Definition runningWith (l : list (string * release)) (chart version : string)
  : list string :=
  (filter (runsWith chart version) l).*1.

(** The chart and version a task probes. *)
Definition taskKey (t : chartTask) : string * string := (t.1.2, t.2).

(** ** makeTargetMap *)

(** One step of the loop over [s.Apps]: [use, ok := groupMap[data.Group]]
    and, when [ok && use], the entry is written. *)
Definition selectByGroup (groupMap : gmap string bool)
    (targetMap : gmap string bool) (entry : string * release)
  : gmap string bool :=
  let '(appName, data) := entry in
  match groupMap !! Group data with
  | Some true => <[appName := true]> targetMap
  | _ => targetMap
  end.

Definition makeTargetMap (s : state) (groups targets : list string) : state :=
  let targetMap := match TargetMap s with None => ∅ | Some m => m end in
  let groupMap : gmap string bool :=
    foldl (λ gm v, <[v := true]> gm) ∅ groups in
  let targetMap :=
    foldl (selectByGroup groupMap) targetMap (GoMap.range (Apps s)) in
  let targetMap := foldl (λ tm v, <[v := true]> tm) targetMap targets in
  withTargetMap (Some targetMap) s.

(** ** disableUntargettedApps *)

(** Modelled from the spec: [release.Disable] is defined in another file; it
    clears the release's enabled flag. *)
Definition Disable (r : release) : release := withEnabled false r.

(** Modelled from the spec: [namespace.Disable] is defined in another file;
    it marks the namespace disabled. *)
Definition nsDisable (ns : namespace) : namespace := mkNamespace true.

(** [use, ok := m[k]; !use || !ok] is false exactly when [k] maps to true. *)
Definition inUse (m : gmap string bool) (k : string) : bool :=
  match m !! k with Some true => true | _ => false end.

(** One step of the loop over [s.Apps]: the accumulator is the apps map and
    the local set [namespaces]. *)
Definition disableApp (targetMap : gmap string bool)
    (acc : gmap string release * gmap string bool) (entry : string * release)
  : gmap string release * gmap string bool :=
  let '(apps, namespaces) := acc in
  let '(appName, app) := entry in
  if negb (inUse targetMap appName)
  then (<[appName := Disable app]> apps, namespaces)
  else (apps, <[Namespace app := true]> namespaces).

(** One step of the loop over [s.Namespaces]. *)
Definition disableNs (namespaces : gmap string bool)
    (acc : gmap string namespace) (entry : string * namespace)
  : gmap string namespace :=
  let '(nsName, ns) := entry in
  if negb (inUse namespaces nsName) then <[nsName := nsDisable ns]> acc else acc.

(** The first loop: the apps as it leaves them, and the set it collected. *)
Definition disableApps (s : state)
  : option (gmap string release) * gmap string bool :=
  match Apps s with
  | None => (None, ∅)
  | Some m =>
      let '(apps, namespaces) :=
        foldl (disableApp (GoMap.entries (TargetMap s))) (m, ∅) (map_to_list m) in
      (Some apps, namespaces)
  end.

(** The second loop, given the set collected by the first. *)
Definition disableNamespaces (namespaces : gmap string bool)
    (m : option (gmap string namespace)) : option (gmap string namespace) :=
  (λ m, foldl (disableNs namespaces) m (map_to_list m)) <$> m.

Definition disableUntargettedApps (s : state) : state :=
  if decide (GoMap.len (TargetMap s) = 0) then s
  else
    let '(apps, namespaces) := disableApps s in
    let s := withApps apps s in
    withNamespaces (disableNamespaces namespaces (Namespaces s)) s.

(** ** Vocabulary of the target-resolution properties *)

(** The release declared under [appName] is in the target map with value
    true: the first loop of [disableUntargettedApps] leaves it alone. *)
Definition targeted (s : state) (appName : string) : bool :=
  inUse (GoMap.entries (TargetMap s)) appName.

(** Some release that the first loop leaves alone lives in namespace [n]. *)
Definition keptAlive (s : state) (n : string) : Prop :=
  ∃ app r, GoMap.get (Apps s) app = Some r ∧ targeted s app = true
           ∧ Namespace r = n.

(** Nothing in the document has been disabled yet. *)
Definition allEnabled (s : state) : Prop :=
  (∀ app r, GoMap.get (Apps s) app = Some r → Enabled r = true)
  ∧ (∀ n ns, GoMap.get (Namespaces s) n = Some ns → nsDisabled ns = false).

(** The release declared under the key [appName] carries a group label
    listed in [groups]. *)
Definition groupSelected (s : state) (groups : list string) (appName : string)
  : Prop :=
  ∃ r, GoMap.get (Apps s) appName = Some r ∧ Group r ∈ groups.

(** ** Example hosts and documents *)

Module Example.

(** A stand-in for [url.ParseRequestURI] that agrees with it on the
    strings used below: absolute paths, https URLs and bucket URLs
    without blanks parse. *)
Definition parses (v : string) : bool :=
  HasPrefix v "/" || HasPrefix v "https://"
  || HasPrefix v "s3://" || HasPrefix v "gs://" || HasPrefix v "az://".

(** A chart probe that cannot find the charts of the repository [ghost]. *)
Definition probe (apps chart version : string) : string :=
  if HasPrefix chart "ghost/"
  then "Chart [ " +:+ chart +:+ " ] with version [ " +:+ version
       +:+ " ] is specified for apps [" +:+ apps +:+ "] but was not found"
  else "".

(** A host with no file at all and no ambient kube context; hooks and
    releases are accepted as they are. *)
Definition host : Env :=
  mkEnv parses (λ _, false) false "" "default"
    (λ _, (true, "")) (λ _ _ names _, (None, names)) probe.

Definition noSettings : config :=
  mkConfig "" "" "" "" "" "" "" false false "" false "" "" None 0.

(** Basic authentication against a remote cluster. *)
Definition remoteSettings : config :=
  mkConfig "prod" "admin" "secret" "https://cluster.example.com:6443" ""
    "" "" false false "" false "" "" None 0.

(** A document that declares nothing at all. *)
Definition blank : state :=
  mkState None None noSettings "" None None [] None None None.

(** [apps: {}]: the apps stanza is there, with no release in it. *)
Definition emptyApps : state := withApps (Some ∅) blank.

(** A remote cluster, no certificates, no apps stanza. *)
Definition remoteNoApps : state := withSettings remoteSettings blank.

(** The same cluster with only the CA certificate declared, in a bucket,
    and an empty apps stanza. *)
Definition remoteCaCrtOnly : state :=
  withApps (Some ∅)
    (withCertificates (Some {[ "caCrt" := "s3://certs/ca.crt" ]}) remoteNoApps).

(** The same cluster with both CA entries and a namespace. *)
Definition remoteComplete : state :=
  withNamespaces (Some {[ "staging" := mkNamespace false ]})
    (withApps (Some ∅)
       (withCertificates
          (Some {[ "caCrt" := "s3://certs/ca.crt"; "caKey" := "s3://certs/ca.key" ]})
          remoteNoApps)).

(** Bearer-token authentication switched on, and no cluster to talk to. *)
Definition bearerSettings : config :=
  mkConfig "prod" "" "" "" "" "" "" false true "" false "" "" None 0.

Definition bearerNoCluster : state :=
  withApps (Some ∅) (withSettings bearerSettings blank).

Definition app (namespace group chart version : string) : release :=
  mkRelease "" namespace group chart version true None 0.

(** Three releases in three groups and three namespaces. *)
Definition threeApps : state :=
  mkState None None noSettings ""
    (Some {[ "ns1" := mkNamespace false; "ns2" := mkNamespace false;
             "ns3" := mkNamespace false ]})
    None []
    (Some {[ "app1" := app "ns1" "g1" "stable/redis" "1.0";
             "app2" := app "ns2" "g2" "ghost/api" "2.0";
             "app3" := app "ns3" "g3" "stable/nginx" "3.1" ]})
    None None.

End Example.

(** ** isNamespaceDefined *)

(** [_, ok := s.Namespaces[ns]; return ok] *)
Definition isNamespaceDefined (s : state) (ns : string) : bool :=
  bool_decide (is_Some (GoMap.get (Namespaces s) ns)).

(** ** overrideAppsNamespace *)

Definition withNamespace (v : string) (r : release) : release :=
  mkRelease (Name r) v (Group r) (Chart r) (Version r) (Enabled r)
    (Hooks r) (MaxHistory r).

(** Modelled from the spec: [overrideNamespace] is defined in another file;
    it "forces" the release "onto one namespace", the one it is given. *)
Definition overrideNamespace (newNs : string) (r : release) : release :=
  withNamespace newNs r.

Definition overrideAppsNamespace (s : state) (newNs : string) : state :=
  withApps (rangeUpdate (λ _ r, overrideNamespace newNs r) (Apps s)) s.

(** ** The loops of target resolution under any visiting order *)

(** [makeTargetMap] when [range s.Apps] visits the releases in the order
    [visit]. *)
Definition makeTargetMapIn (visit : list (string * release)) (s : state)
    (groups targets : list string) : state :=
  let targetMap := match TargetMap s with None => ∅ | Some m => m end in
  let groupMap : gmap string bool :=
    foldl (λ gm v, <[v := true]> gm) ∅ groups in
  let targetMap := foldl (selectByGroup groupMap) targetMap visit in
  let targetMap := foldl (λ tm v, <[v := true]> tm) targetMap targets in
  withTargetMap (Some targetMap) s.

(** The first loop of [disableUntargettedApps] in the order [visit]. *)
Definition disableAppsIn (visit : list (string * release)) (s : state)
  : option (gmap string release) * gmap string bool :=
  match Apps s with
  | None => (None, ∅)
  | Some m =>
      let '(apps, namespaces) :=
        foldl (disableApp (GoMap.entries (TargetMap s))) (m, ∅) visit in
      (Some apps, namespaces)
  end.

(** Its second loop in the order [visit]. *)
Definition disableNamespacesIn (visit : list (string * namespace))
    (namespaces : gmap string bool) (m : option (gmap string namespace))
  : option (gmap string namespace) :=
  (λ m, foldl (disableNs namespaces) m visit) <$> m.

(** [disableUntargettedApps] when the two [range] loops visit the releases
    in the order [visitApps] and the namespaces in the order [visitNs]. *)
Definition disableUntargettedAppsIn (visitApps : list (string * release))
    (visitNs : list (string * namespace)) (s : state) : state :=
  if decide (GoMap.len (TargetMap s) = 0) then s
  else
    let '(apps, namespaces) := disableAppsIn visitApps s in
    let s := withApps apps s in
    withNamespaces (disableNamespacesIn visitNs namespaces (Namespaces s)) s.

(** ** What a document that validates satisfies *)

(** The conditions of the settings stage on the cluster connection. *)
Definition clusterSettingsOk (E : Env) (c : config) : Prop :=
  (ClusterURI c ≠ "" →
     parseRequestURI E (ClusterURI c) = true
     ∧ KubeContext c ≠ ""
     ∧ (BearerToken c = false → Username c ≠ "" ∧ Password c ≠ "")
     ∧ (BearerToken c = true → BearerTokenPath c ≠ "" →
        stat E (BearerTokenPath c) = true))
  ∧ (BearerToken c = true → ClusterURI c ≠ "").

(** The conditions of the certificates stage. *)
Definition certificatesOk (E : Env) (s : state) : Prop :=
  (∀ key value, GoMap.get (Certificates s) key = Some value →
     (isValidCert E value).1 = true)
  ∧ (ClusterURI (Settings s) ≠ "" →
       is_Some (GoMap.get (Certificates s) "caCrt")
       ∧ (BearerToken (Settings s) = false →
          is_Some (GoMap.get (Certificates s) "caKey"))).

(** The conditions of the hooks, webhook, eyaml, namespaces and
    repositories stages. *)
Definition stanzasOk (E : Env) (s : state) : Prop :=
  (GoMap.len (GlobalHooks (Settings s)) ≠ 0 →
     (validateHooks E (GlobalHooks (Settings s))).1 = true)
  ∧ (SlackWebhook (Settings s) ≠ "" →
       parseRequestURI E (SlackWebhook (Settings s)) = true)
  ∧ (EyamlPrivateKeyPath (Settings s) = "" ↔ EyamlPublicKeyPath (Settings s) = "")
  ∧ (nsOverride E = "" → GoMap.len (Namespaces s) ≠ 0)
  ∧ (∀ k v, GoMap.get (HelmRepos s) k = Some v → parseRequestURI E v = true).

(** ** More example documents *)

Module Scenario.


(** Two releases that share a chart and a version, a third one disabled. *)
Definition sharedChart : state :=
  mkState None None Example.noSettings ""
    (Some {[ "web" := mkNamespace false; "jobs" := mkNamespace false ]})
    None []
    (Some {[ "blue" := Example.app "web" "front" "stable/nginx" "3.1";
             "green" := Example.app "web" "front" "stable/nginx" "3.1";
             "batch" := withEnabled false
                          (Example.app "jobs" "back" "ghost/cron" "0.1") ]})
    None None.

(** A local cluster: a context name, one namespace, one repository. *)
Definition localCluster : state :=
  mkState None None
    (mkConfig "minikube" "" "" "" "" "" "" false false "" false "" "" None 0)
    ""
    (Some {[ "web" := mkNamespace false ]})
    (Some {[ "stable" := "https://charts.example.com/stable" ]})
    []
    (Some {[ "blue" := Example.app "web" "front" "stable/nginx" "3.1" ]})
    None None.

(** An execution of the chart validator on the three-release example in
    which every order is the reverse of the one [validateReleaseCharts]
    computes with. *)
Definition reversedRun : chartsRun Example.host Example.threeApps :=
  let visit := reverse (GoMap.range (Apps Example.threeApps)) in
  let tasks := reverse (chartTasks (groupCharts visit)) in
  mkChartsRun Example.host Example.threeApps visit tasks
    (reverse (runTask Example.host <$> tasks))
    (reverse_Permutation _) (reverse_Permutation _) (reverse_Permutation _).

End Scenario.

(** * Properties *)

(** ** isValidCert *)

Lemma hasBucketPrefix_false value :
  hasBucketPrefix value = false ↔
  negb (HasPrefix value "s3://") && negb (HasPrefix value "gs://")
  && negb (HasPrefix value "az://") = true.
Proof.
  unfold hasBucketPrefix.
  destruct (HasPrefix value "s3://"), (HasPrefix value "gs://"),
    (HasPrefix value "az://"); simpl; split; congruence.
Qed.

(** The two results [isValidCert] can give. *)
Lemma isValidCert_cases E value :
  isValidCert E value = (true, value) ∨ isValidCert E value = (false, "").
Proof.
  unfold isValidCert.
  destruct (negb (stat E value) && _); [right | left]; reflexivity.
Qed.

(** C1, as amended.  A value is valid exactly when it names an existing
    local path, or parses as an absolute URI and also starts with one of
    the three bucket prefixes; a valid value is returned unchanged and an
    invalid one yields the empty string. *)
Theorem isValidCert_spec (E : Env) (value : string) :
  ((isValidCert E value).1 = true ↔
     stat E value = true
     ∨ (parseRequestURI E value = true ∧ hasBucketPrefix value = true))
  ∧ isValidCert E value = ((isValidCert E value).1,
                           if (isValidCert E value).1 then value else "").
Proof.
  unfold isValidCert.
  destruct (hasBucketPrefix value) eqn:Hb.
  - assert (negb (HasPrefix value "s3://") && negb (HasPrefix value "gs://")
            && negb (HasPrefix value "az://") = false) as ->.
    { apply not_true_is_false. rewrite <- hasBucketPrefix_false. congruence. }
    destruct (stat E value), (parseRequestURI E value); simpl; split;
      try reflexivity; split; intros; try tauto; try discriminate;
      intuition discriminate.
  - apply hasBucketPrefix_false in Hb. rewrite Hb.
    destruct (stat E value), (parseRequestURI E value); simpl; split;
      try reflexivity; split; intros; try tauto; try discriminate;
      intuition discriminate.
Qed.

(** The bucket URL of the spec's example is valid on a host without files,
    and the dangling local path is not. *)
Lemma isValidCert_spec_witness :
  (isValidCert Example.host "s3://bucket/key").1 = true
  ∧ (isValidCert Example.host "/nonexistent/path").1 ≠ true.
Proof.
  split.
  - apply (proj1 (isValidCert_spec Example.host "s3://bucket/key")).
    right. split; reflexivity.
  - intros H.
    apply (proj1 (isValidCert_spec Example.host "/nonexistent/path")) in H.
    destruct H as [H | [_ H]]; vm_compute in H; discriminate.
Defined.

(** C1 as stated fails: an https URL parses as an absolute URI, yet on a
    host where it is not also a local path it is rejected, because it
    carries no bucket prefix. *)
Lemma isValidCert_rejects_plain_uri :
  let value := "https://example.com/ca.crt" in
  parseRequestURI Example.host value = true
  ∧ isValidCert Example.host value = (false, "")
  ∧ ¬ ((isValidCert Example.host value).1 = true ↔
         parseRequestURI Example.host value = true
         ∨ stat Example.host value = true
         ∨ hasBucketPrefix value = true).
Proof.
  simpl. split; [reflexivity |]. split; [reflexivity |].
  intros [_ H]. specialize (H (or_introl eq_refl)). vm_compute in H.
  discriminate.
Qed.

(** ** Loops over the entries of a map *)

Section entry_loops.
Context {A V : Type}.
Implicit Types (l : list (string * A)) (acc : gmap string V).

(** A step that may overwrite the slot of the key it visits. *)
Variable step : gmap string V → string * A → gmap string V.
Variable write : string → A → option V.
Hypothesis step_write : ∀ acc k a,
  step acc (k, a) =
    match write k a with Some v => <[k := v]> acc | None => acc end.

Lemma foldl_entries_lookup l acc k :
  NoDup l.*1 →
  foldl step acc l !! k =
    match (list_to_map l : gmap string A) !! k with
    | Some a => match write k a with Some v => Some v | None => acc !! k end
    | None => acc !! k
    end.
Proof.
  revert acc. induction l as [| [k' a'] l IH]; intros acc Hnd; [done |].
  rewrite fmap_cons in Hnd. apply NoDup_cons in Hnd as [Hk' Hnd].
  simpl in Hk'.
  change (foldl step acc ((k', a') :: l)) with (foldl step (step acc (k', a')) l).
  change (list_to_map ((k', a') :: l) : gmap string A)
    with (<[k' := a']> (list_to_map l) : gmap string A).
  rewrite IH by done. rewrite step_write.
  destruct (decide (k = k')) as [-> | Hne].
  - rewrite lookup_insert_eq.
    apply (not_elem_of_list_to_map (M := gmap string)) in Hk'. rewrite Hk'.
    destruct (write k' a'); [by rewrite lookup_insert_eq | done].
  - rewrite lookup_insert_ne by done.
    destruct (list_to_map l !! k) as [a |]; [destruct (write k a); [done |] |];
      destruct (write k' a'); by rewrite ?lookup_insert_ne.
Qed.

(** The loop over the entries of [m], in any order. *)
Lemma foldl_range_lookup (m : gmap string A) l acc k :
  l ≡ₚ map_to_list m →
  foldl step acc l !! k =
    match m !! k with
    | Some a => match write k a with Some v => Some v | None => acc !! k end
    | None => acc !! k
    end.
Proof.
  intros Hl. rewrite foldl_entries_lookup.
  - assert ((list_to_map l : gmap string A) = m) as ->; [| done].
    rewrite <- (list_to_map_to_list m). apply list_to_map_proper; [| done].
    rewrite Hl. apply NoDup_fst_map_to_list.
  - rewrite Hl. apply NoDup_fst_map_to_list.
Qed.
End entry_loops.

Lemma lookup_updateEach {V} (f : string → V → V) (m : gmap string V) k :
  updateEach f m !! k = f k <$> m !! k.
Proof.
  unfold updateEach.
  rewrite (foldl_range_lookup _ (λ k v, Some (f k v)) (λ _ _ _, eq_refl) m)
    by done.
  by destruct (m !! k).
Qed.

(** Updating twice with an idempotent body is updating once. *)
Lemma rangeUpdate_idemp {V} (f : string → V → V) (m : option (gmap string V)) :
  (∀ k v, f k (f k v) = f k v) →
  rangeUpdate f (rangeUpdate f m) = rangeUpdate f m.
Proof.
  intros Hf. destruct m as [m |]; [| done]. simpl. f_equal.
  apply map_eq. intros k. rewrite !lookup_updateEach.
  destruct (m !! k); simpl; by rewrite ?Hf.
Qed.

(** ** setDefaults *)

Lemma inheritHooks_idemp s r :
  inheritHooks s (inheritHooks s r) = inheritHooks s r.
Proof.
  unfold inheritHooks. destruct r as [n ns g c v e h mh]; simpl.
  repeat (case_decide; simpl in * ); done.
Qed.

Lemma inheritMaxHistory_idemp s r :
  inheritMaxHistory s (inheritMaxHistory s r) = inheritMaxHistory s r.
Proof.
  unfold inheritMaxHistory. destruct r as [n ns g c v e h mh]; simpl.
  repeat (case_decide; simpl in * ); try reflexivity; congruence.
Qed.

Lemma setDefaultsApp_idemp s name r :
  setDefaultsApp s name (setDefaultsApp s name r) = setDefaultsApp s name r.
Proof.
  unfold setDefaultsApp, inheritMaxHistory, inheritHooks.
  destruct r as [n ns g c v e h mh]; simpl.
  repeat (case_decide; simpl in * ); try reflexivity; try done; congruence.
Qed.

(** The loop body reads the settings of the document and nothing else. *)
Lemma setDefaultsApp_settings s1 s2 :
  Settings s1 = Settings s2 → setDefaultsApp s1 = setDefaultsApp s2.
Proof.
  intros H. unfold setDefaultsApp, inheritMaxHistory, inheritHooks.
  by rewrite H.
Qed.

(** On the three-release example: the backend and the context get their
    defaults and a release without a name is named after its key. *)
Lemma setDefaults_threeApps :
  let s' := (setDefaults Example.host Example.threeApps ∅).1 in
  StorageBackend (Settings s') = "secret"
  ∧ Context s' = "default"
  ∧ Name <$> GoMap.get (Apps s') "app2" = Some "app2".
Proof. by vm_compute. Qed.

(** C6.  Running [setDefaults] on the document it produced gives the same
    document again, whatever the process environment is.  (The environment
    itself is not part of the statement: the second run may export
    [HELM_DRIVER] where the first did not.) *)
Theorem setDefaults_idempotent (E : Env) (s : state) (penv penv' : processEnv) :
  (setDefaults E (setDefaults E s penv).1 penv').1 = (setDefaults E s penv).1.
Proof.
  destruct s as [md certs c ctx nss repos pre apps tmpl tm].
  unfold setDefaults. simpl.
  destruct (decide (StorageBackend c ≠ "")) as [Hsb | Hsb]; simpl.
  - destruct (decide (ctx = "")) as [-> | Hctx]; simpl;
      (destruct (decide (StorageBackend c ≠ "")); [simpl | done]).
    + destruct (decide (defaultContextName E = "")) as [Heq | Hne]; simpl;
        rewrite rangeUpdate_idemp by apply setDefaultsApp_idemp;
        rewrite ?Heq; reflexivity.
    + destruct (decide (ctx = "")); [done |]. simpl.
      by rewrite rangeUpdate_idemp by apply setDefaultsApp_idemp.
  - destruct (decide (ctx = "")) as [-> | Hctx]; simpl.
    + destruct (decide (defaultContextName E = "")) as [Heq | Hne]; simpl;
        rewrite rangeUpdate_idemp by apply setDefaultsApp_idemp;
        rewrite ?Heq; reflexivity.
    + destruct (decide (ctx = "")); [done |]. simpl.
      by rewrite rangeUpdate_idemp by apply setDefaultsApp_idemp.
Qed.

(** ** makeTargetMap *)

Lemma foldl_insert_true_lookup (l : list string) (acc : gmap string bool) k :
  foldl (λ tm v, <[v := true]> tm) acc l !! k =
    if decide (k ∈ l) then Some true else acc !! k.
Proof.
  revert acc. induction l as [| v l IH]; intros acc; cbn [foldl].
  - by rewrite decide_False by apply not_elem_of_nil.
  - rewrite IH.
    destruct (decide (k ∈ v :: l)) as [Hc | Hc], (decide (k ∈ l)) as [Hin | Hnin];
      try done.
    + apply elem_of_cons in Hc as [-> | ?]; [apply lookup_insert_eq | done].
    + exfalso. apply Hc. by right.
    + apply lookup_insert_ne. intros ->. apply Hc. by left.
Qed.

(** What [makeTargetMap] leaves under every key. *)
Lemma makeTargetMap_lookup s groups targets k :
  GoMap.get (TargetMap (makeTargetMap s groups targets)) k =
    if decide (k ∈ targets) then Some true
    else match GoMap.get (Apps s) k with
         | Some data =>
             if decide (Group data ∈ groups) then Some true
             else GoMap.get (TargetMap s) k
         | None => GoMap.get (TargetMap s) k
         end.
Proof.
  unfold makeTargetMap, GoMap.get. simpl.
  rewrite foldl_insert_true_lookup.
  destruct (decide (k ∈ targets)); [done |].
  set (groupMap := foldl (λ gm v, <[v := true]> gm) ∅ groups).
  assert (∀ acc k' a, selectByGroup groupMap acc (k', a) =
            match (match groupMap !! Group a with
                   | Some true => Some true | _ => None end) with
            | Some v => <[k' := v]> acc | None => acc end) as Hstep.
  { intros acc k' a. simpl. by destruct (groupMap !! Group a) as [[] |]. }
  rewrite (foldl_range_lookup _ _ Hstep (GoMap.entries (Apps s))) by done.
  assert (match TargetMap s with Some m => m | None => ∅ end
          = GoMap.entries (TargetMap s)) as -> by by destruct (TargetMap s).
  destruct (GoMap.entries (Apps s) !! k) as [data |]; [| done].
  unfold groupMap. rewrite foldl_insert_true_lookup.
  destruct (decide (Group data ∈ groups)); [done |].
  by rewrite lookup_empty.
Qed.

(** C4.  The target map is the union of the two selections: a key is put
    in the map, with value true, as soon as the release declared under it
    has a group label listed in [groups] or the key is listed in [names];
    on a document whose target map was empty nothing else is in the map.
    In the spec's example the map is exactly app1 and app3. *)
Theorem makeTargetMap_union (s : state) (groups names : list string) :
  (∀ name, groupSelected s groups name ∨ name ∈ names →
     GoMap.get (TargetMap (makeTargetMap s groups names)) name = Some true)
  ∧ (GoMap.len (TargetMap s) = 0 →
     ∀ name, is_Some (GoMap.get (TargetMap (makeTargetMap s groups names)) name) →
       groupSelected s groups name ∨ name ∈ names)
  ∧ TargetMap (makeTargetMap Example.threeApps ["g1"] ["app3"])
    = Some {[ "app1" := true; "app3" := true ]}.
Proof.
  split; [| split].
  - intros name H. rewrite makeTargetMap_lookup.
    destruct (decide (name ∈ names)) as [| Hn]; [done |].
    destruct H as [(r & Hr & Hg) | H]; [| done].
    rewrite Hr. by rewrite decide_True.
  - intros Hlen name. rewrite makeTargetMap_lookup.
    assert (GoMap.get (TargetMap s) name = None) as ->.
    { unfold GoMap.get. unfold GoMap.len in Hlen.
      apply map_size_empty_iff in Hlen. rewrite Hlen. apply lookup_empty. }
    destruct (decide (name ∈ names)); [by right |].
    destruct (GoMap.get (Apps s) name) as [data |] eqn:Hd.
    + destruct (decide (Group data ∈ groups)).
      * intros _. left. by exists data.
      * by intros [? ?].
    + by intros [? ?].
  - by vm_compute.
Qed.

(** In the spec's example app1 is selected through its group, app3 by its
    name, and app2 is not in the map. *)
Lemma makeTargetMap_union_witness :
  GoMap.get (TargetMap (makeTargetMap Example.threeApps ["g1"] ["app3"])) "app1"
    = Some true
  ∧ GoMap.get (TargetMap (makeTargetMap Example.threeApps ["g1"] ["app3"])) "app3"
    = Some true
  ∧ ¬ is_Some (GoMap.get (TargetMap (makeTargetMap Example.threeApps ["g1"] ["app3"]))
                 "app2").
Proof.
  pose proof (makeTargetMap_union Example.threeApps ["g1"] ["app3"])
    as (Hin & Hout & _).
  split; [| split].
  - apply Hin. left. exists (Example.app "ns1" "g1" "stable/redis" "1.0").
    split; [by vm_compute | by left].
  - apply Hin. right. by left.
  - intros H. apply Hout in H; [| by vm_compute].
    destruct H as [(r & Hr & Hg) | H].
    + vm_compute in Hr. injection Hr as <-. simpl in Hg.
      apply list_elem_of_singleton in Hg. discriminate.
    + apply list_elem_of_singleton in H. discriminate.
Defined.

(** ** disableUntargettedApps *)

(** The two halves of the accumulator of the first loop evolve on their
    own: the apps half ... *)
Lemma disableApp_fold_apps tm l apps namespaces :
  (foldl (disableApp tm) (apps, namespaces) l).1 =
    foldl (λ acc entry, (disableApp tm (acc, ∅) entry).1) apps l.
Proof.
  revert apps namespaces.
  induction l as [| [k app] l IH]; intros apps namespaces; [done |].
  cbn [foldl]. unfold disableApp at 2 4.
  destruct (negb (inUse tm k)); apply IH.
Qed.

(** ... and the collected set. *)
Lemma disableApp_fold_namespaces tm l apps namespaces :
  (foldl (disableApp tm) (apps, namespaces) l).2 =
    foldl (λ acc entry, (disableApp tm (∅, acc) entry).2) namespaces l.
Proof.
  revert apps namespaces.
  induction l as [| [k app] l IH]; intros apps namespaces; [done |].
  cbn [foldl]. unfold disableApp at 2 4.
  destruct (negb (inUse tm k)); apply IH.
Qed.

(** A namespace is in the collected set exactly when it was there before
    or belongs to a visited release that the target map selects. *)
Lemma collected_inUse tm (l : list (string * release)) namespaces n :
  inUse (foldl (λ acc entry, (disableApp tm (∅, acc) entry).2) namespaces l) n
    = true ↔
  inUse namespaces n = true
  ∨ ∃ k app, (k, app) ∈ l ∧ inUse tm k = true ∧ Namespace app = n.
Proof.
  revert namespaces.
  induction l as [| [k app] l IH]; intros namespaces; cbn [foldl].
  - split; [by left |]. intros [? | (? & ? & H & _)]; [done |].
    by apply elem_of_nil in H.
  - rewrite IH. unfold disableApp. destruct (inUse tm k) eqn:Hk; simpl.
    + split.
      * intros [H | (k' & app' & Hin & Hu & Hn)].
        -- unfold inUse in H. destruct (decide (Namespace app = n)) as [<- | Hne].
           ++ right. exists k, app. split; [by left | done].
           ++ rewrite lookup_insert_ne in H by done. by left.
        -- right. exists k', app'. split; [by right | done].
      * intros [H | (k' & app' & Hin & Hu & Hn)].
        -- left. unfold inUse in *.
           destruct (decide (Namespace app = n)) as [<- | Hne].
           ++ by rewrite lookup_insert_eq.
           ++ by rewrite lookup_insert_ne.
        -- apply elem_of_cons in Hin as [[= -> ->] | Hin].
           ++ left. unfold inUse. by rewrite Hn, lookup_insert_eq.
           ++ right. by exists k', app'.
    + split.
      * intros [H | (k' & app' & Hin & Hu & Hn)]; [by left |].
        right. exists k', app'. split; [by right | done].
      * intros [H | (k' & app' & Hin & Hu & Hn)]; [by left |].
        apply elem_of_cons in Hin as [[= -> ->] | Hin]; [congruence |].
        right. by exists k', app'.
Qed.

(** The first loop disables the releases the target map does not select
    and touches no other. *)
Lemma disableApps_lookup s k :
  GoMap.get (disableApps s).1 k =
    (λ r, if targeted s k then r else Disable r) <$> GoMap.get (Apps s) k.
Proof.
  unfold disableApps, GoMap.get, targeted.
  destruct (Apps s) as [m |]; simpl; [| by rewrite lookup_empty].
  set (tm := GoMap.entries (TargetMap s)).
  destruct (foldl (disableApp tm) (m, ∅) (map_to_list m)) as [apps nss] eqn:Hf.
  simpl. pose proof (disableApp_fold_apps tm (map_to_list m) m ∅) as Ha.
  rewrite Hf in Ha. simpl in Ha. rewrite Ha.
  assert (∀ acc k' a,
    (disableApp tm (acc, ∅) (k', a)).1 =
      match (if inUse tm k' then None else Some (Disable a)) with
      | Some v => <[k' := v]> acc | None => acc end) as Hstep.
  { intros acc k' a. simpl. by destruct (inUse tm k'). }
  rewrite (foldl_range_lookup _ _ Hstep m) by done.
  destruct (m !! k) as [r |]; simpl; [| done].
  by destruct (inUse tm k).
Qed.

(** The set the first loop collects is the set of namespaces kept alive. *)
Lemma disableApps_collected s n :
  inUse (disableApps s).2 n = true ↔ keptAlive s n.
Proof.
  unfold disableApps, keptAlive, GoMap.get, targeted.
  destruct (Apps s) as [m |]; simpl.
  - set (tm := GoMap.entries (TargetMap s)).
    destruct (foldl (disableApp tm) (m, ∅) (map_to_list m)) as [apps nss] eqn:Hf.
    simpl. pose proof (disableApp_fold_namespaces tm (map_to_list m) m ∅) as Hn.
    rewrite Hf in Hn. cbn [snd] in Hn. rewrite Hn, collected_inUse.
    split.
    + intros [H | (k & app & Hin & Hu & Hns)]; [done |].
      exists k, app. by apply elem_of_map_to_list in Hin.
    + intros (k & app & Hin & Hu & Hns). right.
      exists k, app. by apply elem_of_map_to_list in Hin.
  - split; [done |]. intros (k & app & H & _). by rewrite lookup_empty in H.
Qed.

(** The second loop disables the namespaces outside the given set. *)
Lemma disableNamespaces_lookup namespaces m n :
  GoMap.get (disableNamespaces namespaces m) n =
    (λ ns, if inUse namespaces n then ns else nsDisable ns) <$> GoMap.get m n.
Proof.
  unfold disableNamespaces, GoMap.get.
  destruct m as [m |]; simpl; [| by rewrite lookup_empty].
  assert (∀ acc k' a,
    disableNs namespaces acc (k', a) =
      match (if inUse namespaces k' then None else Some (nsDisable a)) with
      | Some v => <[k' := v]> acc | None => acc end) as Hstep.
  { intros acc k' a. simpl. by destruct (inUse namespaces k'). }
  rewrite (foldl_range_lookup _ _ Hstep m) by done.
  destruct (m !! n) as [ns |]; simpl; [| done].
  by destruct (inUse namespaces n).
Qed.

(** With a non-empty target map the function is the first loop followed by
    the second, which reads the set the first one has finished. *)
Lemma disableUntargettedApps_unfold s :
  GoMap.len (TargetMap s) ≠ 0 →
  disableUntargettedApps s =
    withNamespaces (disableNamespaces (disableApps s).2 (Namespaces s))
      (withApps (disableApps s).1 s).
Proof.
  intros H. unfold disableUntargettedApps.
  rewrite decide_False by done. by destruct (disableApps s).
Qed.

Lemma targeted_false s app :
  targeted s app = false ↔
  GoMap.get (TargetMap s) app = None ∨ GoMap.get (TargetMap s) app = Some false.
Proof.
  unfold targeted, inUse, GoMap.get.
  destruct (GoMap.entries (TargetMap s) !! app) as [[] |]; split;
    try done; try (by right); try (by left); by intros [? | ?].
Qed.

(** What the function leaves under every key of the two maps. *)
Lemma disableUntargettedApps_lookups s :
  GoMap.len (TargetMap s) ≠ 0 →
  (∀ app, GoMap.get (Apps (disableUntargettedApps s)) app =
            (λ r, if targeted s app then r else Disable r) <$> GoMap.get (Apps s) app)
  ∧ (∀ n, GoMap.get (Namespaces (disableUntargettedApps s)) n =
            (λ ns, if inUse (disableApps s).2 n then ns else nsDisable ns)
              <$> GoMap.get (Namespaces s) n).
Proof.
  intros Hlen. rewrite disableUntargettedApps_unfold by done. split.
  - intros app. simpl. apply disableApps_lookup.
  - intros n. simpl. apply disableNamespaces_lookup.
Qed.

(** C3.  With a non-empty target map, [Disable] is applied to exactly the
    releases whose key is absent from the map or mapped to false, and the
    others are left as they are; a namespace is left as it is if and only
    if it is the namespace of a release that the release pass left alone,
    and is disabled otherwise; the namespace pass runs on the set that the
    completed release pass collected.  On a document where nothing was
    disabled beforehand this reads on the flags: a release is enabled
    afterwards iff it is targeted, and a namespace is enabled afterwards
    iff an enabled release lives in it. *)
Theorem disableUntargettedApps_cascade (s : state) :
  GoMap.len (TargetMap s) ≠ 0 →
  let s' := disableUntargettedApps s in
  (∀ app, GoMap.get (Apps s') app =
            (λ r, if targeted s app then r else Disable r) <$> GoMap.get (Apps s) app)
  ∧ (∀ app, targeted s app = false ↔
       GoMap.get (TargetMap s) app = None ∨ GoMap.get (TargetMap s) app = Some false)
  ∧ (∀ n ns, GoMap.get (Namespaces s) n = Some ns →
       (keptAlive s n → GoMap.get (Namespaces s') n = Some ns)
       ∧ (¬ keptAlive s n → GoMap.get (Namespaces s') n = Some (nsDisable ns)))
  ∧ (∀ n, GoMap.get (Namespaces s) n = None → GoMap.get (Namespaces s') n = None)
  ∧ s' = withNamespaces (disableNamespaces (disableApps s).2 (Namespaces s))
           (withApps (disableApps s).1 s)
  ∧ (allEnabled s →
     (∀ app r', GoMap.get (Apps s') app = Some r' →
        (Enabled r' = true ↔ targeted s app = true))
     ∧ (∀ n ns', GoMap.get (Namespaces s') n = Some ns' →
          (nsDisabled ns' = false ↔
           ∃ app r', GoMap.get (Apps s') app = Some r' ∧ Enabled r' = true
                     ∧ Namespace r' = n))).
Proof.
  intros Hlen s'.
  assert (s' = withNamespaces (disableNamespaces (disableApps s).2 (Namespaces s))
                 (withApps (disableApps s).1 s)) as Hs'
    by by apply disableUntargettedApps_unfold.
  destruct (disableUntargettedApps_lookups s Hlen) as [Happs Hnss].
  fold s' in Happs, Hnss.
  split; [done |]. split; [apply targeted_false |].
  split; [| split; [| split; [done |]]].
  - intros n ns Hns. rewrite Hnss, Hns. simpl. split.
    + intros Hk. apply disableApps_collected in Hk. by rewrite Hk.
    + intros Hk. destruct (inUse (disableApps s).2 n) eqn:Hu; [| done].
      by apply disableApps_collected in Hu.
  - intros n Hn. by rewrite Hnss, Hn.
  - intros [Hen Hnen]. split.
    + intros app r'. rewrite Happs.
      destruct (GoMap.get (Apps s) app) as [r |] eqn:Hr; [| done]. simpl.
      intros [= <-]. destruct (targeted s app); [| done].
      split; [done |]. intros _. by eapply Hen.
    + intros n ns'. rewrite Hnss.
      destruct (GoMap.get (Namespaces s) n) as [ns |] eqn:Hns; [| done]. simpl.
      intros [= <-].
      destruct (inUse (disableApps s).2 n) eqn:Hu.
      * split; [| intros _; by eapply Hnen].
        intros _. apply disableApps_collected in Hu as (app & r & Hr & Ht & Hn).
        exists app, r. rewrite Happs, Hr. simpl. rewrite Ht.
        split; [done |]. split; [by eapply Hen | done].
      * split; [done |]. intros (app & r' & Hr' & He & Hn). exfalso.
        rewrite Happs in Hr'.
        destruct (GoMap.get (Apps s) app) as [r |] eqn:Hr; [| done].
        simpl in Hr'. injection Hr' as <-.
        destruct (targeted s app) eqn:Ht; [| done].
        assert (inUse (disableApps s).2 n = true); [| congruence].
        apply disableApps_collected. by exists app, r.
Qed.

(** In the three-release example with groups g1 and name app3, app2 is
    disabled and so is its namespace ns2, which no other release uses;
    app1 and its namespace are left as they were. *)
Lemma disableUntargettedApps_cascade_witness :
  let s := makeTargetMap Example.threeApps ["g1"] ["app3"] in
  GoMap.len (TargetMap s) ≠ 0
  ∧ GoMap.get (Apps (disableUntargettedApps s)) "app2"
    = Some (Disable (Example.app "ns2" "g2" "ghost/api" "2.0"))
  ∧ GoMap.get (Apps (disableUntargettedApps s)) "app1"
    = Some (Example.app "ns1" "g1" "stable/redis" "1.0")
  ∧ GoMap.get (Namespaces (disableUntargettedApps s)) "ns2"
    = Some (nsDisable (mkNamespace false))
  ∧ GoMap.get (Namespaces (disableUntargettedApps s)) "ns1"
    = Some (mkNamespace false).
Proof.
  intros s.
  assert (GoMap.len (TargetMap s) ≠ 0) as Hlen by by vm_compute.
  destruct (disableUntargettedApps_cascade s Hlen) as (Happs & _ & Hnss & _).
  split; [done |].
  split; [by rewrite Happs |]. split; [by rewrite Happs |]. split.
  - apply (Hnss "ns2"); [by vm_compute |].
    intros Hk. apply disableApps_collected in Hk. by vm_compute in Hk.
  - apply (Hnss "ns1"); [by vm_compute |].
    apply disableApps_collected. by vm_compute.
Defined.

(** C8.  With an empty target map, nil or allocated, the document comes
    back as it was: no release, no namespace and no other field changes. *)
Theorem disableUntargettedApps_empty_noop (s : state) :
  GoMap.len (TargetMap s) = 0 → disableUntargettedApps s = s.
Proof.
  intros H. unfold disableUntargettedApps. by rewrite decide_True.
Qed.

(** Without selectors the target map of the three-release example stays
    empty and nothing is disabled. *)
Lemma disableUntargettedApps_empty_noop_witness :
  let s := makeTargetMap Example.threeApps [] [] in
  GoMap.len (TargetMap s) = 0 ∧ disableUntargettedApps s = s.
Proof.
  intros s.
  assert (GoMap.len (TargetMap s) = 0) as Hlen by by vm_compute.
  split; [done |]. by apply disableUntargettedApps_empty_noop.
Defined.

(** ** Names that match no release *)

Lemma GoMap_len_0_get {V} (m : option (gmap string V)) k :
  GoMap.len m = 0 → GoMap.get m k = None.
Proof.
  unfold GoMap.len, GoMap.get. intros H.
  apply map_size_empty_iff in H. rewrite H. apply lookup_empty.
Qed.

Lemma GoMap_get_len {V} (m : option (gmap string V)) k v :
  GoMap.get m k = Some v → GoMap.len m ≠ 0.
Proof.
  intros Hget Hlen. by rewrite (GoMap_len_0_get m k Hlen) in Hget.
Qed.

(** C10.  Every requested name is stored with value true, whether or not
    a release is declared under it; [makeTargetMap] stores no other value,
    so a map that held only true entries (an empty one in particular)
    still does, and a release that is not targeted is then absent from
    the map, never present with false; a non-empty list of names makes
    the map non-empty; and when the names match no release and no group
    selects one, [disableUntargettedApps] disables every release and every
    namespace of the document. *)
Theorem makeTargetMap_unknown_names (s : state) (groups names : list string) :
  let s1 := makeTargetMap s groups names in
  (∀ v, v ∈ names → GoMap.get (TargetMap s1) v = Some true)
  ∧ ((∀ k b, GoMap.get (TargetMap s) k = Some b → b = true) →
     (∀ k b, GoMap.get (TargetMap s1) k = Some b → b = true)
     ∧ (∀ app, targeted s1 app = false → GoMap.get (TargetMap s1) app = None))
  ∧ (names ≠ [] → GoMap.len (TargetMap s1) ≠ 0)
  ∧ (GoMap.len (TargetMap s) = 0 → names ≠ [] →
     (∀ v, v ∈ names → GoMap.get (Apps s) v = None) →
     (∀ app, ¬ groupSelected s groups app) →
     (∀ app r, GoMap.get (Apps s) app = Some r →
        GoMap.get (Apps (disableUntargettedApps s1)) app = Some (Disable r))
     ∧ (∀ n ns, GoMap.get (Namespaces s) n = Some ns →
          GoMap.get (Namespaces (disableUntargettedApps s1)) n
            = Some (nsDisable ns))).
Proof.
  intros s1.
  assert (∀ v, v ∈ names → GoMap.get (TargetMap s1) v = Some true) as Hnames.
  { intros v Hv. unfold s1. rewrite makeTargetMap_lookup. by rewrite decide_True. }
  assert (names ≠ [] → GoMap.len (TargetMap s1) ≠ 0) as Hne.
  { intros Hn. destruct names as [| v names']; [done |].
    apply (GoMap_get_len _ v true). apply Hnames. by left. }
  split; [done |]. split; [| split; [done |]].
  - intros Htrue.
    assert (∀ k b, GoMap.get (TargetMap s1) k = Some b → b = true) as Hall.
    { intros k b. unfold s1. rewrite makeTargetMap_lookup.
      destruct (decide (k ∈ names)); [congruence |].
      destruct (GoMap.get (Apps s) k) as [data |]; [| apply Htrue].
      destruct (decide (Group data ∈ groups)); [congruence | apply Htrue]. }
    split; [done |].
    intros app Ht. apply targeted_false in Ht as [H | H]; [done |].
    apply Hall in H. discriminate.
  - intros Hlen Hn Hmiss Hgroups.
    assert (∀ app r, GoMap.get (Apps s) app = Some r → targeted s1 app = false)
      as Hnot.
    { intros app r Hr. apply targeted_false. left.
      unfold s1. rewrite makeTargetMap_lookup.
      destruct (decide (app ∈ names)) as [Hin | _].
      { apply Hmiss in Hin. congruence. }
      rewrite Hr. destruct (decide (Group r ∈ groups)) as [Hg | _].
      { exfalso. apply (Hgroups app). by exists r. }
      by apply GoMap_len_0_get. }
    destruct (disableUntargettedApps_lookups s1 (Hne Hn)) as [Happs Hnss].
    split.
    + intros app r Hr. rewrite Happs.
      change (Apps s1) with (Apps s). rewrite Hr. simpl.
      by rewrite (Hnot app r Hr).
    + intros n ns Hns. rewrite Hnss.
      change (Namespaces s1) with (Namespaces s). rewrite Hns. simpl.
      destruct (inUse (disableApps s1).2 n) eqn:Hu; [| done].
      apply disableApps_collected in Hu as (app & r & Hr & Ht & _).
      change (Apps s1) with (Apps s) in Hr.
      rewrite (Hnot app r Hr) in Ht. discriminate.
Qed.

(** A name that no release carries, on the three-release example: the map
    is not empty, and the first release and its namespace are disabled. *)
Lemma makeTargetMap_unknown_names_witness :
  let s := Example.threeApps in
  let s1 := makeTargetMap s [] ["nope"] in
  GoMap.len (TargetMap s) = 0
  ∧ GoMap.get (TargetMap s1) "nope" = Some true
  ∧ GoMap.len (TargetMap s1) ≠ 0
  ∧ GoMap.get (Apps (disableUntargettedApps s1)) "app1"
    = Some (Disable (Example.app "ns1" "g1" "stable/redis" "1.0"))
  ∧ GoMap.get (Namespaces (disableUntargettedApps s1)) "ns1"
    = Some (nsDisable (mkNamespace false)).
Proof.
  intros s s1.
  destruct (makeTargetMap_unknown_names s [] ["nope"])
    as (Hnames & _ & Hne & Hall).
  assert (GoMap.len (TargetMap s) = 0) as Hlen by by vm_compute.
  assert (["nope"] ≠ @nil string) as Hn by done.
  split; [done |]. split; [apply Hnames; by left |]. split; [by apply Hne |].
  destruct (Hall Hlen Hn) as [Happs Hnss].
  - intros v Hv. apply list_elem_of_singleton in Hv as ->. by vm_compute.
  - intros app (r & _ & Hg). by apply elem_of_nil in Hg.
  - split; [apply Happs | apply Hnss]; by vm_compute.
Defined.


(** ** validate *)

(** The certificate loop writes back what it read: the map does not
    change, whether the loop ends with an error or not. *)
Lemma validateCertEntries_keeps E l certs :
  (∀ k v, (k, v) ∈ l → certs !! k = Some v) →
  (validateCertEntries E l certs).1 = certs.
Proof.
  revert certs. induction l as [| [key value] l IH]; intros certs Hl; [done |].
  cbn [validateCertEntries].
  destruct (isValidCert_cases E value) as [-> | ->]; simpl; [| done].
  rewrite insert_id by (apply Hl; by left).
  apply IH. intros k v Hin. apply Hl. by right.
Qed.

(** The certificates stage leaves the document as it found it. *)
Lemma checkCertificates_state E s : (checkCertificates E s).1 = s.
Proof.
  unfold checkCertificates.
  destruct (Certificates s) as [m |] eqn:Hc; simpl.
  - destruct (bool_decide (GoMap.len (Some m) ≠ 0)).
    + pose proof (validateCertEntries_keeps E (map_to_list m) m) as Hk.
      unfold GoMap.range, GoMap.entries. simpl.
      destruct (validateCertEntries E (map_to_list m) m) as [certs err].
      simpl in Hk. rewrite Hk by (intros k v; apply elem_of_map_to_list).
      assert (withCertificates (Some m) s = s) as ->.
      { destruct s. simpl in Hc. by rewrite Hc. }
      destruct err; [done |].
      repeat (match goal with |- context [if ?b then _ else _] => destruct b end;
              simpl); done.
    + by destruct (bool_decide _).
  - by destruct (bool_decide _).
Qed.

(** What the certificates stage answers when the map has entries and all
    of them are valid, in terms of the keys of the map. *)
Lemma checkCertificates_error E s :
  ClusterURI (Settings s) ≠ "" →
  (BearerToken (Settings s) = false
     ∧ ¬ (is_Some (GoMap.get (Certificates s) "caCrt")
          ∧ is_Some (GoMap.get (Certificates s) "caKey")))
  ∨ (BearerToken (Settings s) = true
     ∧ ¬ is_Some (GoMap.get (Certificates s) "caCrt"))
  ∨ GoMap.len (Certificates s) = 0 →
  is_Some (checkCertificates E s).2.
Proof.
  intros Huri Hcase. unfold checkCertificates.
  destruct (negb (GoMap.is_nil (Certificates s))
            && bool_decide (GoMap.len (Certificates s) ≠ 0)) eqn:Hdecl.
  - apply andb_prop in Hdecl as [Hnil Hlen].
    apply bool_decide_eq_true in Hlen.
    destruct (Certificates s) as [m |] eqn:Hc; [| done].
    pose proof (validateCertEntries_keeps E (map_to_list m) m) as Hk.
    unfold GoMap.range, GoMap.entries. simpl.
    destruct (validateCertEntries E (map_to_list m) m) as [certs err].
    simpl in Hk. rewrite Hk by (intros k v; apply elem_of_map_to_list).
    destruct err; [by eexists |]. simpl.
    rewrite (bool_decide_eq_true_2 _ Huri). simpl.
    unfold GoMap.get, GoMap.entries in Hcase. simpl in Hcase.
    destruct Hcase as [[Hb Hkeys] | [[Hb Hkey] | Hlen0]].
    + rewrite Hb. simpl.
      destruct (bool_decide (is_Some (m !! "caCrt"))) eqn:H1,
               (bool_decide (is_Some (m !! "caKey"))) eqn:H2;
        simpl; try by eexists.
      apply bool_decide_eq_true in H1, H2. tauto.
    + rewrite Hb. simpl.
      destruct (bool_decide (is_Some (m !! "caCrt"))) eqn:H1;
        simpl; try by eexists.
      apply bool_decide_eq_true in H1. tauto.
    + done.
  - rewrite (bool_decide_eq_true_2 _ Huri). by eexists.
Qed.

(** Once the apps stanza is there, an error of the certificates stage makes
    [validate] return an error: that one, or the one of an earlier stage. *)
Lemma validate_error_by_certificates E s :
  GoMap.is_nil (Apps s) = false →
  is_Some (checkCertificates E s).2 →
  ∃ msg, (validate E s).2 = Error msg.
Proof.
  intros Hnil [msg Hmsg]. unfold validate. rewrite Hnil.
  destruct (checkKubeContext E s); [by eexists |].
  destruct (checkCluster E s); [by eexists |].
  destruct (checkHooks E s); [by eexists |].
  destruct (checkSlackWebhook E s); [by eexists |].
  destruct (checkCertificates E s) as [s2 err]. simpl in Hmsg. subst err.
  by eexists.
Qed.

(** [validate] never changes the document. *)
Lemma validate_state E s : (validate E s).1 = s.
Proof.
  unfold validate.
  destruct (GoMap.is_nil (Apps s)); [done |].
  destruct (checkKubeContext E s); [done |].
  destruct (checkCluster E s); [done |].
  destruct (checkHooks E s); [done |].
  destruct (checkSlackWebhook E s); [done |].
  pose proof (checkCertificates_state E s) as Hs.
  destruct (checkCertificates E s) as [s2 err]. simpl in Hs. subst s2.
  destruct err; [done |].
  destruct (checkEyaml s); [done |].
  destruct (checkNamespaces E s); [done |].
  destruct (checkRepos E _); [done |].
  by destruct (checkApps E s _ _).
Qed.

(** C2, as amended.  When the document has no apps map at all (the map is
    nil), [validate] runs no further stage and returns no error: the process
    exits with status 0 inside the call, the document untouched. *)
Theorem validate_nil_apps_exits (E : Env) (s : state) :
  Apps s = None → validate E s = (s, Exit 0).
Proof.
  intros H. unfold validate. by rewrite H.
Qed.

(** The document that declares nothing. *)
Lemma validate_nil_apps_exits_witness :
  Apps Example.blank = None
  ∧ validate Example.host Example.blank = (Example.blank, Exit 0).
Proof.
  split; [reflexivity |].
  apply (validate_nil_apps_exits Example.host Example.blank). reflexivity.
Defined.

(** C2 as stated fails: with an allocated, empty apps map there is no
    release, yet [validate] goes on to the settings stage and returns its
    error. *)
Lemma validate_empty_apps_continues :
  GoMap.len (Apps Example.emptyApps) = 0
  ∧ (validate Example.host Example.emptyApps).2
    = Error ("settings validation failed -- you have not defined a "
             +:+ "kubeContext to use. Either define it in the desired state file or pass a kubeconfig with --kubeconfig to use an existing context")
  ∧ (validate Example.host Example.emptyApps).2 ≠ Exit 0.
Proof.
  split; [by vm_compute |]. split; [by vm_compute |]. by vm_compute.
Qed.

(** C7, as amended.  For a document that has an apps map and a non-empty
    cluster URI, [validate] returns an error: without bearer token, unless
    both caCrt and caKey are keys of the certificates; with bearer token,
    unless caCrt is; and in any case when no certificate is declared. *)
Theorem validate_cluster_certificates (E : Env) (s : state) :
  Apps s ≠ None →
  ClusterURI (Settings s) ≠ "" →
  (BearerToken (Settings s) = false →
   ¬ (is_Some (GoMap.get (Certificates s) "caCrt")
      ∧ is_Some (GoMap.get (Certificates s) "caKey")) →
   ∃ msg, (validate E s).2 = Error msg)
  ∧ (BearerToken (Settings s) = true →
     ¬ is_Some (GoMap.get (Certificates s) "caCrt") →
     ∃ msg, (validate E s).2 = Error msg)
  ∧ (GoMap.len (Certificates s) = 0 →
     ∃ msg, (validate E s).2 = Error msg).
Proof.
  intros Happs Huri.
  assert (GoMap.is_nil (Apps s) = false) as Hnil by by destruct (Apps s).
  split; [| split]; intros; apply validate_error_by_certificates; try done;
    apply checkCertificates_error; try done; tauto.
Qed.

(** Basic authentication against a remote cluster with caCrt alone. *)
Lemma validate_cluster_certificates_witness :
  let s := Example.remoteCaCrtOnly in
  Apps s ≠ None
  ∧ ClusterURI (Settings s) ≠ ""
  ∧ BearerToken (Settings s) = false
  ∧ ¬ (is_Some (GoMap.get (Certificates s) "caCrt")
       ∧ is_Some (GoMap.get (Certificates s) "caKey"))
  ∧ ∃ msg, (validate Example.host s).2 = Error msg.
Proof.
  intros s.
  assert (Apps s ≠ None) as Happs by done.
  assert (ClusterURI (Settings s) ≠ "") as Huri by done.
  assert (¬ (is_Some (GoMap.get (Certificates s) "caCrt")
             ∧ is_Some (GoMap.get (Certificates s) "caKey"))) as Hkeys.
  { intros [_ [v Hv]]. by vm_compute in Hv. }
  repeat (split; [done |]).
  destruct (validate_cluster_certificates Example.host s Happs Huri)
    as (Hbasic & _ & _).
  apply Hbasic; [reflexivity | exact Hkeys].
Defined.

(** With caCrt and caKey both declared the same cluster passes. *)
Lemma validate_remoteComplete :
  validate Example.host Example.remoteComplete = (Example.remoteComplete, Ok).
Proof. by vm_compute. Qed.

(** C7 as stated fails: a document with a cluster URI, basic
    authentication and no certificate, but without an apps map, does not
    fail validation; the process exits with status 0 before the
    certificates are looked at. *)
Lemma validate_no_apps_skips_certificates :
  let s := Example.remoteNoApps in
  ClusterURI (Settings s) ≠ ""
  ∧ BearerToken (Settings s) = false
  ∧ GoMap.len (Certificates s) = 0
  ∧ validate Example.host s = (s, Exit 0)
  ∧ ¬ ∃ msg, (validate Example.host s).2 = Error msg.
Proof.
  repeat (split; [by vm_compute |]).
  intros [msg H]. by vm_compute in H.
Qed.

(** C9.  A document that gets past the apps check and the kube-context
    check, with bearer token enabled and no cluster URI, is rejected with
    the error of the settings stage. *)
Theorem validate_bearer_needs_cluster (E : Env) (s : state) :
  Apps s ≠ None →
  KubeContext (Settings s) ≠ "" ∨ getKubeContext E = true →
  BearerToken (Settings s) = true →
  ClusterURI (Settings s) = "" →
  validate E s =
    (s, Error "settings validation failed -- bearer token is enabled but no cluster URI provided").
Proof.
  intros Happs Hctx Hb Huri. unfold validate.
  assert (GoMap.is_nil (Apps s) = false) as -> by by destruct (Apps s).
  assert (checkKubeContext E s = None) as ->.
  { unfold checkKubeContext, isZeroConfig. rewrite Hb.
    destruct Hctx as [Hk | ->].
    - rewrite (bool_decide_eq_false_2 _ Hk). reflexivity.
    - simpl. by rewrite andb_false_r. }
  unfold checkCluster. rewrite Hb, Huri. reflexivity.
Qed.

(** Bearer token and a context name, no cluster URI. *)
Lemma validate_bearer_needs_cluster_witness :
  let s := Example.bearerNoCluster in
  Apps s ≠ None
  ∧ BearerToken (Settings s) = true
  ∧ ClusterURI (Settings s) = ""
  ∧ ∃ msg, validate Example.host s = (s, Error msg).
Proof.
  intros s. repeat (split; [done |]). eexists.
  apply (validate_bearer_needs_cluster Example.host s);
    [done | by left | done | done].
Defined.

(** ** validateReleaseCharts *)

Lemma chartApps_addChart charts app r c v :
  chartApps (addChart charts (app, r)) c v =
    if decide (runsWith c v (app, r))
    then Some (default [] (chartApps charts c v) ++ [app])%list
    else chartApps charts c v.
Proof.
  unfold addChart, chartApps.
  destruct (decide (runsWith c v (app, r))) as [(Hrun & <- & <-) | Hn].
  - simpl in *. rewrite Hrun. simpl. rewrite lookup_insert_eq. simpl.
    rewrite lookup_insert_eq. by destruct (charts !! Chart r).
  - destruct (isConsideredToRun r) eqn:Hrun; simpl; [| done].
    destruct (decide (Chart r = c)) as [<- | Hc].
    + rewrite lookup_insert_eq. simpl.
      destruct (decide (Version r = v)) as [<- | Hv]; [by destruct Hn |].
      rewrite lookup_insert_ne by done.
      destruct (charts !! Chart r); simpl; [done | by rewrite lookup_empty].
    + by rewrite lookup_insert_ne.
Qed.

Lemma groupCharts_snoc l entry :
  groupCharts (l ++ [entry]) = addChart (groupCharts l) entry.
Proof. unfold groupCharts. by rewrite foldl_app. Qed.

Lemma runningWith_snoc l entry c v :
  runningWith (l ++ [entry]) c v =
    (runningWith l c v ++ if decide (runsWith c v entry) then [entry.1] else [])%list.
Proof.
  unfold runningWith. rewrite filter_app, fmap_app. f_equal.
  rewrite filter_cons, filter_nil. by destruct (decide (runsWith c v entry)).
Qed.

(** After the first loop, [charts[c][v]] lists the running releases with
    chart [c] at version [v], and is absent when there is none. *)
Lemma groupCharts_lookup l c v :
  chartApps (groupCharts l) c v =
    match runningWith l c v with [] => None | apps => Some apps end.
Proof.
  induction l as [| [app r] l IH] using rev_ind.
  - unfold chartApps, groupCharts. simpl. by rewrite lookup_empty.
  - rewrite groupCharts_snoc, chartApps_addChart, runningWith_snoc, IH.
    destruct (decide (runsWith c v (app, r))); simpl.
    + destruct (runningWith l c v); simpl; done.
    + by rewrite app_nil_r.
Qed.

Lemma elem_of_runningWith l c v app :
  app ∈ runningWith l c v ↔ ∃ r, (app, r) ∈ l ∧ runsWith c v (app, r).
Proof.
  unfold runningWith. rewrite list_elem_of_fmap. split.
  - intros ([app' r] & -> & Hin). apply list_elem_of_filter in Hin as [? ?].
    by exists r.
  - intros (r & Hin & Hr). exists (app, r). split; [done |].
    by apply list_elem_of_filter.
Qed.

(** The tasks of the second loop. *)
Lemma elem_of_chartTasks charts a c v :
  (a, c, v) ∈ chartTasks charts ↔
  ∃ apps, chartApps charts c v = Some apps ∧ a = Join apps ", ".
Proof.
  unfold chartTasks, chartApps. rewrite list_elem_of_bind. split.
  - intros ([chart versions] & Hin & Hc).
    apply elem_of_map_to_list in Hc.
    apply list_elem_of_bind in Hin as ([version apps] & Hin & Hv).
    apply elem_of_map_to_list in Hv.
    apply list_elem_of_singleton in Hin as [= -> -> ->].
    exists apps. by rewrite Hc.
  - intros (apps & Hl & ->).
    destruct (charts !! c) as [versions |] eqn:Hc; [| done]. simpl in Hl.
    exists (c, versions). split; [| by apply elem_of_map_to_list].
    apply list_elem_of_bind. exists (v, apps).
    split; [by apply list_elem_of_singleton | by apply elem_of_map_to_list].
Qed.

(** No chart and version is probed twice. *)
Lemma chartTasks_keys_NoDup charts : NoDup (taskKey <$> chartTasks charts).
Proof.
  apply NoDup_fmap_2_strong.
  - intros [[a1 c1] v1] [[a2 c2] v2] H1 H2 [= -> ->].
    apply elem_of_chartTasks in H1 as (apps1 & Hl1 & ->).
    apply elem_of_chartTasks in H2 as (apps2 & Hl2 & ->).
    congruence.
  - unfold chartTasks. apply NoDup_bind.
    + intros [c1 vs1] [c2 vs2] [[a c] v] Hc1 Hc2 Hin1 Hin2.
      apply elem_of_map_to_list in Hc1, Hc2.
      apply list_elem_of_bind in Hin1 as ([v1 apps1] & Hin1 & _).
      apply list_elem_of_bind in Hin2 as ([v2 apps2] & Hin2 & _).
      apply list_elem_of_singleton in Hin1 as [= -> -> ->].
      apply list_elem_of_singleton in Hin2 as [= _ -> _].
      congruence.
    + intros [c vs] _. apply NoDup_bind.
      * intros [v1 apps1] [v2 apps2] [[a c'] v] Hv1 Hv2 Hin1 Hin2.
        apply elem_of_map_to_list in Hv1, Hv2.
        apply list_elem_of_singleton in Hin1 as [= -> -> ->].
        apply list_elem_of_singleton in Hin2 as [= _ ->].
        congruence.
      * intros [v apps] _. apply NoDup_singleton.
      * apply NoDup_map_to_list.
    + apply NoDup_map_to_list.
Qed.

(** The drain loop raises the flag as soon as one string is not empty and
    never lowers it: every string of the queue is looked at. *)
Lemma drain_from (queue : list string) (fail : bool) :
  foldl (λ fail err, if bool_decide (err ≠ "") then true else fail) fail queue
    = true ↔
  fail = true ∨ ∃ err, err ∈ queue ∧ err ≠ "".
Proof.
  revert fail. induction queue as [| err queue IH]; intros fail; cbn [foldl].
  - split; [by left |]. intros [? | (? & H & _)]; [done |].
    by apply elem_of_nil in H.
  - rewrite IH. destruct (decide (err = "")) as [-> | Hne].
    + rewrite bool_decide_eq_false_2 by (by intros H). split.
      * intros [? | (e & Hin & He)]; [by left |]. right. exists e.
        split; [by right | done].
      * intros [? | (e & Hin & He)]; [by left |].
        apply elem_of_cons in Hin as [-> | Hin]; [done |]. right. by exists e.
    + rewrite bool_decide_eq_true_2 by done. split.
      * intros _. right. exists err. split; [by left | done].
      * intros _. by left.
Qed.

Lemma drain_true queue :
  drain queue = true ↔ ∃ err, err ∈ queue ∧ err ≠ "".
Proof.
  unfold drain. rewrite drain_from. split; [| by right].
  by intros [? | ?].
Qed.

Section runs.
Context {E : Env} {s : state} (run : chartsRun E s).

Lemma elem_of_visit app r :
  (app, r) ∈ visit run ↔ GoMap.get (Apps s) app = Some r.
Proof.
  rewrite (visit_order _ _ run). unfold GoMap.range, GoMap.get.
  apply elem_of_map_to_list.
Qed.

Lemma elem_of_tasks a c v :
  (a, c, v) ∈ tasks run ↔
  ∃ apps, a = Join apps ", " ∧ apps ≠ []
    ∧ apps = runningWith (visit run) c v.
Proof.
  rewrite (tasks_order _ _ run), elem_of_chartTasks. split.
  - intros (apps & Hl & ->). exists apps. split; [done |].
    rewrite groupCharts_lookup in Hl.
    destruct (runningWith (visit run) c v); [done |].
    injection Hl as <-. done.
  - intros (apps & -> & Hne & ->). exists (runningWith (visit run) c v).
    split; [| done]. rewrite groupCharts_lookup.
    by destruct (runningWith (visit run) c v).
Qed.

Lemma elem_of_running c v app :
  app ∈ runningWith (visit run) c v ↔
  ∃ r, GoMap.get (Apps s) app = Some r ∧ runsWith c v (app, r).
Proof.
  rewrite elem_of_runningWith.
  split; intros (r & H & Hr); exists r; split; try done;
    by apply elem_of_visit.
Qed.

(** The channel has room for every string that is sent. *)
Lemma tasks_fit : (List.length (tasks run) ≤ GoMap.len (Apps s))%nat.
Proof.
  assert (List.length (tasks run) = List.length (taskKey <$> tasks run)) as ->
    by by rewrite length_fmap.
  assert (GoMap.len (Apps s)
          = List.length ((λ entry : string * release,
                       (Chart entry.2, Version entry.2)) <$> visit run)) as ->.
  { rewrite length_fmap, (visit_order _ _ run).
    unfold GoMap.range, GoMap.len. by rewrite length_map_to_list. }
  apply submseteq_length, NoDup_submseteq.
  - rewrite (tasks_order _ _ run). apply chartTasks_keys_NoDup.
  - intros [c v] Hin. apply list_elem_of_fmap in Hin as ([[a c'] v'] & [= -> ->] & Hin).
    apply elem_of_tasks in Hin as (apps & _ & Hne & ->).
    destruct (runningWith (visit run) c' v') as [| app apps] eqn:Hr; [done |].
    assert (app ∈ runningWith (visit run) c' v') as Happ by (rewrite Hr; by left).
    apply elem_of_runningWith in Happ as (r & Hin & _ & <- & <-).
    apply list_elem_of_fmap. by exists (app, r).
Qed.

Lemma runResult_failed :
  runResult run = Some "chart validation failed" ↔
  ∃ t, t ∈ tasks run ∧ runTask E t ≠ "".
Proof.
  unfold runResult, chartsResult.
  destruct (drain (queue run)) eqn:Hd.
  - split; [intros _ | done]. apply drain_true in Hd as (err & Hin & Hne).
    rewrite (queue_order _ _ run) in Hin.
    apply list_elem_of_fmap in Hin as (t & -> & Hin). by exists t.
  - split; [done |]. intros (t & Hin & Hne).
    assert (drain (queue run) = true); [| congruence].
    apply drain_true. exists (runTask E t). split; [| done].
    rewrite (queue_order _ _ run). by apply list_elem_of_fmap_2.
Qed.
End runs.

(** C5.  In every execution of [validateReleaseCharts]: each running
    release has its chart and version probed; no chart and version is
    probed twice; a probe is launched only for a pair that some running
    release has, and the names it is given are exactly those of the running
    releases with that pair, so a disabled release is never probed; the
    result channel has room for every probe's string; and the function
    returns the error "chart validation failed" if and only if some probe
    sent a non-empty string, wherever that string stands in the queue, and
    nil if every probe sent the empty string.  [validateReleaseCharts]
    computes one of these executions. *)
Theorem validateReleaseCharts_fail_slow (E : Env) (s : state) :
  (∀ run : chartsRun E s,
     (∀ app r, GoMap.get (Apps s) app = Some r → isConsideredToRun r = true →
        ∃ a, (a, Chart r, Version r) ∈ tasks run)
     ∧ NoDup (taskKey <$> tasks run)
     ∧ (∀ a c v, (a, c, v) ∈ tasks run →
          ∃ apps, a = Join apps ", " ∧ apps ≠ []
            ∧ ∀ app, app ∈ apps ↔
                ∃ r, GoMap.get (Apps s) app = Some r ∧ runsWith c v (app, r))
     ∧ (List.length (tasks run) ≤ GoMap.len (Apps s))%nat
     ∧ (runResult run = Some "chart validation failed" ↔
        ∃ t, t ∈ tasks run ∧ runTask E t ≠ "")
     ∧ ((∀ t, t ∈ tasks run → runTask E t = "") → runResult run = None))
  ∧ validateReleaseCharts E s = runResult (canonicalRun E s).
Proof.
  split; [| done]. intros run.
  split; [| split; [| split; [| split; [| split]]]].
  - intros app r Hr Hrun.
    exists (Join (runningWith (visit run) (Chart r) (Version r)) ", ").
    apply elem_of_tasks. eexists. split; [done |]. split; [| done].
    assert (app ∈ runningWith (visit run) (Chart r) (Version r)) as Hin.
    { apply elem_of_running. by exists r. }
    intros Hnil. rewrite Hnil in Hin. by apply elem_of_nil in Hin.
  - rewrite (tasks_order _ _ run). apply chartTasks_keys_NoDup.
  - intros a c v Hin. apply elem_of_tasks in Hin as (apps & -> & Hne & ->).
    eexists. split; [done |]. split; [done |]. apply elem_of_running.
  - apply tasks_fit.
  - apply runResult_failed.
  - intros Hall. destruct (runResult run) as [msg |] eqn:Hres; [| done].
    assert (runResult run = Some "chart validation failed") as Hf.
    { revert Hres. unfold runResult, chartsResult.
      by destruct (drain (queue run)). }
    apply runResult_failed in Hf as (t & Hin & Hne). by apply Hall in Hin.
Qed.

(** On the three-release example the chart of app2 cannot be found: the
    two other probes succeed and the aggregate error is returned.  Once
    app2 is disabled by target resolution its chart is not probed any more
    and the validation passes. *)
Lemma validateReleaseCharts_fail_slow_witness :
  let s := Example.threeApps in
  let s' := disableUntargettedApps (makeTargetMap s ["g1"] ["app3"]) in
  validateReleaseCharts Example.host s = Some "chart validation failed"
  ∧ List.length (tasks (canonicalRun Example.host s)) = 3
  ∧ validateReleaseCharts Example.host s' = None.
Proof.
  intros s s'. split; [| split].
  - destruct (validateReleaseCharts_fail_slow Example.host s) as [Hruns ->].
    destruct (Hruns (canonicalRun Example.host s)) as (_ & _ & _ & _ & Hfail & _).
    apply Hfail. exists ("app2", "ghost/api", "2.0"). split.
    + apply (bool_decide_unpack _). by vm_compute.
    + by vm_compute.
  - by vm_compute.
  - destruct (validateReleaseCharts_fail_slow Example.host s') as [Hruns ->].
    destruct (Hruns (canonicalRun Example.host s')) as (_ & _ & _ & _ & _ & Hok).
    apply Hok. intros t Ht.
    assert (bool_decide (runTask Example.host t = "") = true) as Hb;
      [| by apply bool_decide_eq_true in Hb].
    revert t Ht. apply Forall_forall.
    apply (bool_decide_unpack _). by vm_compute.
Defined.

(** * Further properties of the code *)

(** ** Go maps *)

(** Two maps with the same nil-ness and the same lookups are equal. *)
Lemma GoMap_eq {V} (m1 m2 : option (gmap string V)) :
  GoMap.is_nil m1 = GoMap.is_nil m2 →
  (∀ k, GoMap.get m1 k = GoMap.get m2 k) → m1 = m2.
Proof.
  destruct m1 as [m1 |], m2 as [m2 |]; try done.
  intros _ H. f_equal. by apply map_eq.
Qed.

Lemma GoMap_get_rangeUpdate {V} (f : string → V → V)
    (m : option (gmap string V)) k :
  GoMap.get (rangeUpdate f m) k = f k <$> GoMap.get m k.
Proof.
  destruct m as [m |]; simpl; [apply lookup_updateEach |].
  unfold GoMap.get. simpl. by rewrite lookup_empty.
Qed.

Lemma GoMap_nil_rangeUpdate {V} (f : string → V → V)
    (m : option (gmap string V)) :
  GoMap.is_nil (rangeUpdate f m) = GoMap.is_nil m.
Proof. by destruct m. Qed.

(** ** setDefaults: environment, frame and release names *)



Lemma setDefaultsApp_fields s k r :
  Name (setDefaultsApp s k r) = (if decide (Name r = "") then k else Name r)
  ∧ Namespace (setDefaultsApp s k r) = Namespace r
  ∧ Group (setDefaultsApp s k r) = Group r
  ∧ Chart (setDefaultsApp s k r) = Chart r
  ∧ Version (setDefaultsApp s k r) = Version r
  ∧ Enabled (setDefaultsApp s k r) = Enabled r.
Proof.
  unfold setDefaultsApp, inheritMaxHistory, inheritHooks.
  destruct r as [n ns g c v e h mh]; simpl.
  repeat (case_decide; simpl in * ); done.
Qed.

(** The apps map that [setDefaults] leaves. *)
Lemma setDefaults_apps E s penv :
  ∃ s0, Apps (setDefaults E s penv).1 = rangeUpdate (setDefaultsApp s0) (Apps s).
Proof.
  destruct s as [md certs c ctx nss repos pre apps tmpl tm].
  unfold setDefaults. simpl.
  destruct (decide (StorageBackend c ≠ "")); simpl;
    destruct (decide (ctx = "")); simpl; eexists; reflexivity.
Qed.

(** X2.  [setDefaults] touches the storage backend, the context and the
    releases, nothing else: the other settings, certificates, namespaces,
    repositories and target map stay, the context is the user's or the
    default one, and no release is added or removed (a nil apps map stays
    nil). *)
Theorem setDefaults_frame (E : Env) (s : state) (penv : processEnv) :
  let s' := (setDefaults E s penv).1 in
  Metadata s' = Metadata s ∧ Certificates s' = Certificates s
  ∧ Namespaces s' = Namespaces s ∧ HelmRepos s' = HelmRepos s
  ∧ PreconfiguredHelmRepos s' = PreconfiguredHelmRepos s
  ∧ AppsTemplates s' = AppsTemplates s ∧ TargetMap s' = TargetMap s
  ∧ withStorageBackend "" (Settings s') = withStorageBackend "" (Settings s)
  ∧ Context s' = (if decide (Context s = "") then defaultContextName E
                  else Context s)
  ∧ GoMap.is_nil (Apps s') = GoMap.is_nil (Apps s)
  ∧ (∀ k, is_Some (GoMap.get (Apps s') k) ↔ is_Some (GoMap.get (Apps s) k)).
Proof.
  intros s'.
  assert (GoMap.is_nil (Apps s') = GoMap.is_nil (Apps s)
          ∧ ∀ k, is_Some (GoMap.get (Apps s') k) ↔ is_Some (GoMap.get (Apps s) k))
    as [Hnil Hkeys].
  { unfold s'. destruct (setDefaults_apps E s penv) as [s0 ->]. split.
    - apply GoMap_nil_rangeUpdate.
    - intros k. rewrite GoMap_get_rangeUpdate. apply fmap_is_Some. }
  revert Hnil Hkeys. unfold s'. clear s'.
  destruct s as [md certs c ctx nss repos pre apps tmpl tm].
  unfold setDefaults. simpl.
  destruct (decide (StorageBackend c ≠ "")); simpl;
    destruct (decide (ctx = "")); simpl;
    intros Hnil Hkeys; repeat (split; [done |]); done.
Qed.

(** The three-release example has no context: it gets the default one,
    and its namespaces are the ones it had. *)
Lemma setDefaults_frame_witness :
  Context (setDefaults Example.host Example.threeApps ∅).1 = "default"
  ∧ Namespaces (setDefaults Example.host Example.threeApps ∅).1
    = Namespaces Example.threeApps.
Proof.
  destruct (setDefaults_frame Example.host Example.threeApps ∅)
    as (_ & _ & Hns & _ & _ & _ & _ & _ & Hctx & _).
  split; [rewrite Hctx; by vm_compute | exact Hns].
Defined.

(** X3.  After [setDefaults] a release is named after the key it is
    declared under when it had no name, and keeps its name otherwise; its
    namespace, group, chart, version and enabled flag are untouched. *)
Theorem setDefaults_release_names (E : Env) (s : state) (penv : processEnv)
    (k : string) (r : release) :
  GoMap.get (Apps s) k = Some r →
  ∃ r', GoMap.get (Apps (setDefaults E s penv).1) k = Some r'
    ∧ Name r' = (if decide (Name r = "") then k else Name r)
    ∧ Namespace r' = Namespace r ∧ Group r' = Group r
    ∧ Chart r' = Chart r ∧ Version r' = Version r ∧ Enabled r' = Enabled r.
Proof.
  intros Hr. destruct (setDefaults_apps E s penv) as [s0 ->].
  exists (setDefaultsApp s0 k r). split.
  - by rewrite GoMap_get_rangeUpdate, Hr.
  - apply setDefaultsApp_fields.
Qed.

(** The releases of the three-release example have no name. *)
Lemma setDefaults_release_names_witness :
  ∃ r', GoMap.get (Apps (setDefaults Example.host Example.threeApps ∅).1) "app3"
        = Some r'
    ∧ Name r' = "app3" ∧ Namespace r' = "ns3".
Proof.
  destruct (setDefaults_release_names Example.host Example.threeApps ∅ "app3"
              (Example.app "ns3" "g3" "stable/nginx" "3.1"))
    as (r' & Hr' & Hn & Hns & _); [by vm_compute |].
  exists r'. split; [done |]. split; [by rewrite Hn | by rewrite Hns].
Defined.

(** ** validate: what the stages accept *)

Lemma checkRepos_None E l :
  checkRepos E l = None ↔ ∀ k v, (k, v) ∈ l → parseRequestURI E v = true.
Proof.
  induction l as [| [k v] l IH]; cbn [checkRepos].
  - split; [| done]. intros _ k v H. by apply elem_of_nil in H.
  - destruct (parseRequestURI E v) eqn:Hv; simpl.
    + rewrite IH. split.
      * intros H k' v' [[= -> ->] | Hin]%elem_of_cons; [done | by eapply H].
      * intros H k' v' Hin. eapply H. by right.
    + split; [done |]. intros H.
      rewrite (H k v) in Hv by (by left). done.
Qed.

Lemma validateCertEntries_None E l certs :
  (validateCertEntries E l certs).2 = None ↔
  ∀ k v, (k, v) ∈ l → (isValidCert E v).1 = true.
Proof.
  revert certs. induction l as [| [k v] l IH]; intros certs;
    cbn [validateCertEntries].
  - split; [| done]. intros _ k v H. by apply elem_of_nil in H.
  - destruct (isValidCert_cases E v) as [Hv | Hv]; rewrite Hv; simpl.
    + rewrite IH. split.
      * intros H k' v' [[= -> ->] | Hin]%elem_of_cons;
          [by rewrite Hv | by eapply H].
      * intros H k' v' Hin. eapply H. by right.
    + split; [done |]. intros H.
      specialize (H k v (ltac:(by left))). by rewrite Hv in H.
Qed.

Lemma checkKubeContext_None E s :
  checkKubeContext E s = None ↔
  KubeContext (Settings s) ≠ "" ∨ getKubeContext E = true.
Proof.
  unfold checkKubeContext.
  destruct (decide (KubeContext (Settings s) = "")) as [Hk | Hk].
  - rewrite (bool_decide_eq_true_2 _ Hk), orb_true_r.
    destruct (getKubeContext E); simpl; split; try done; [by right |].
    by intros [? | ?].
  - assert (isZeroConfig (Settings s) = false) as ->.
    { unfold isZeroConfig. by rewrite (bool_decide_eq_false_2 _ Hk). }
    rewrite (bool_decide_eq_false_2 _ Hk). simpl. split; [by left | done].
Qed.

Lemma checkCluster_None E s :
  checkCluster E s = None ↔ clusterSettingsOk E (Settings s).
Proof.
  unfold checkCluster, clusterSettingsOk.
  destruct (Settings s) as [kc us pw uri sa sb sw rd bt btp ee epr epu gh gmh].
  simpl.
  destruct bt, (parseRequestURI E uri) eqn:Hp, (stat E btp) eqn:Hst; simpl;
    repeat (case_bool_decide; simpl); split; intros; try done;
    try (exfalso; intuition congruence); intuition congruence.
Qed.

Lemma checkCertificates_None E s :
  (checkCertificates E s).2 = None ↔ certificatesOk E s.
Proof.
  unfold checkCertificates, certificatesOk.
  destruct (negb (GoMap.is_nil (Certificates s))
            && bool_decide (GoMap.len (Certificates s) ≠ 0)) eqn:Hdecl.
  - apply andb_prop in Hdecl as [Hnil Hlen].
    destruct (Certificates s) as [m |] eqn:Hc; [| done].
    pose proof (validateCertEntries_keeps E (map_to_list m) m) as Hk.
    pose proof (validateCertEntries_None E (map_to_list m) m) as Hv.
    unfold GoMap.range, GoMap.get, GoMap.entries. simpl.
    destruct (validateCertEntries E (map_to_list m) m) as [certs err].
    simpl in Hk, Hv. rewrite Hk by (intros k v; apply elem_of_map_to_list).
    assert (err = None ↔ ∀ key value, m !! key = Some value →
                           (isValidCert E value).1 = true) as Hv'.
    { rewrite Hv. split; intros H k v Hin; apply (H k v);
        by apply elem_of_map_to_list. }
    destruct err as [msg |]; simpl.
    { split; [done |]. intros [H _]. apply Hv' in H. done. }
    assert (∀ key value, m !! key = Some value → (isValidCert E value).1 = true)
      as Hall by by apply Hv'.
    destruct (decide (ClusterURI (Settings s) = "")) as [Huri | Huri].
    + rewrite (bool_decide_eq_false_2 _ (λ H, H Huri)). simpl.
      split; [| done]. intros _. split; [done |]. by intros H.
    + rewrite (bool_decide_eq_true_2 _ Huri). simpl.
      destruct (BearerToken (Settings s)); simpl.
      * destruct (bool_decide (is_Some (m !! "caCrt"))) eqn:H1; simpl.
        -- apply bool_decide_eq_true in H1. split; [| done]. intros _.
           split; [done |]. intros _. split; [done | done].
        -- apply bool_decide_eq_false in H1. split; [done |].
           intros [_ H]. by destruct (H Huri).
      * destruct (bool_decide (is_Some (m !! "caCrt"))) eqn:H1,
                 (bool_decide (is_Some (m !! "caKey"))) eqn:H2; simpl;
          try apply bool_decide_eq_true in H1;
          try apply bool_decide_eq_true in H2;
          try apply bool_decide_eq_false in H1;
          try apply bool_decide_eq_false in H2.
        -- split; [| done]. intros _. split; [done |]. intros _.
           split; [done |]. by intros _.
        -- split; [done |]. intros [_ H]. destruct (H Huri) as [_ Hk'].
           by specialize (Hk' eq_refl).
        -- split; [done |]. intros [_ H]. by destruct (H Huri).
        -- split; [done |]. intros [_ H]. by destruct (H Huri).
  - assert (GoMap.len (Certificates s) = 0) as Hlen.
    { unfold GoMap.len. destruct (Certificates s) as [m |]; simpl in *.
      - apply bool_decide_eq_false in Hdecl.
        destruct (decide (size m = 0)); [done | by destruct Hdecl].
      - apply map_size_empty. }
    destruct (decide (ClusterURI (Settings s) = "")) as [Huri | Huri].
    + rewrite (bool_decide_eq_false_2 _ (λ H, H Huri)). simpl.
      split; [| done]. intros _. split; [| by intros H].
      intros key value. by rewrite (GoMap_len_0_get _ key Hlen).
    + rewrite (bool_decide_eq_true_2 _ Huri). simpl.
      split; [done |]. intros [_ H]. destruct (H Huri) as [[v Hv] _].
      by rewrite (GoMap_len_0_get _ "caCrt" Hlen) in Hv.
Qed.

Lemma stanzas_None E s :
  checkHooks E s = None ∧ checkSlackWebhook E s = None ∧ checkEyaml s = None
  ∧ checkNamespaces E s = None ∧ checkRepos E (GoMap.range (HelmRepos s)) = None
  ↔ stanzasOk E s.
Proof.
  unfold stanzasOk.
  assert (checkHooks E s = None ↔
          (GoMap.len (GlobalHooks (Settings s)) ≠ 0 →
           (validateHooks E (GlobalHooks (Settings s))).1 = true)) as ->.
  { unfold checkHooks. case_bool_decide; [| done].
    destruct (validateHooks E _) as [[] msg]; simpl; split; try done.
    intros Himp. by specialize (Himp ltac:(done)). }
  assert (checkSlackWebhook E s = None ↔
          (SlackWebhook (Settings s) ≠ "" →
           parseRequestURI E (SlackWebhook (Settings s)) = true)) as ->.
  { unfold checkSlackWebhook. case_bool_decide; simpl; [| done].
    destruct (parseRequestURI E _); simpl; split; try done.
    intros Himp. by specialize (Himp ltac:(done)). }
  assert (checkEyaml s = None ↔
          (EyamlPrivateKeyPath (Settings s) = ""
           ↔ EyamlPublicKeyPath (Settings s) = "")) as ->.
  { unfold checkEyaml. repeat (case_bool_decide; simpl); split; try done;
      try tauto; intros; exfalso; tauto. }
  assert (checkNamespaces E s = None ↔
          (nsOverride E = "" → GoMap.len (Namespaces s) ≠ 0)) as ->.
  { unfold checkNamespaces. case_bool_decide; [| done].
    destruct (Namespaces s) as [m |]; simpl.
    - case_bool_decide; split; try done. intros Himp. by specialize (Himp ltac:(done)).
    - split; [done |]. intros Himp. by specialize (Himp ltac:(done)). }
  rewrite checkRepos_None.
  assert ((∀ k v, (k, v) ∈ GoMap.range (HelmRepos s) → parseRequestURI E v = true)
          ↔ (∀ k v, GoMap.get (HelmRepos s) k = Some v → parseRequestURI E v = true))
    as ->; [| done].
  unfold GoMap.range, GoMap.get.
  split; intros H k v Hin; apply (H k v); by apply elem_of_map_to_list.
Qed.

(** [validate] returns nil exactly when every stage finds no error. *)
Lemma validate_Ok_stages E s :
  (validate E s).2 = Ok ↔
  GoMap.is_nil (Apps s) = false ∧ checkKubeContext E s = None
  ∧ checkCluster E s = None ∧ (checkCertificates E s).2 = None
  ∧ (checkHooks E s = None ∧ checkSlackWebhook E s = None ∧ checkEyaml s = None
     ∧ checkNamespaces E s = None
     ∧ checkRepos E (GoMap.range (HelmRepos s)) = None)
  ∧ checkApps E s (GoMap.range (Apps s)) ∅ = None.
Proof.
  unfold validate.
  destruct (GoMap.is_nil (Apps s)); [by split; [| intros [? _]] |].
  destruct (checkKubeContext E s); [by split; [| intros (_ & ? & _)] |].
  destruct (checkCluster E s); [by split; [| intros (_ & _ & ? & _)] |].
  destruct (checkHooks E s);
    [by split; [| intros (_ & _ & _ & _ & (? & _) & _)] |].
  destruct (checkSlackWebhook E s);
    [by split; [| intros (_ & _ & _ & _ & (_ & ? & _) & _)] |].
  pose proof (checkCertificates_state E s) as Hs.
  destruct (checkCertificates E s) as [s2 err]. simpl in Hs. subst s2. simpl.
  destruct err; [by split; [| intros (_ & _ & _ & ? & _)] |].
  destruct (checkEyaml s);
    [by split; [| intros (_ & _ & _ & _ & (_ & _ & ? & _) & _)] |].
  destruct (checkNamespaces E s);
    [by split; [| intros (_ & _ & _ & _ & (_ & _ & _ & ? & _) & _)] |].
  destruct (checkRepos E (GoMap.range (HelmRepos s)));
    [by split; [| intros (_ & _ & _ & _ & (_ & _ & _ & _ & ?) & _)] |].
  destruct (checkApps E s (GoMap.range (Apps s)) ∅);
    [by split; [| intros (_ & _ & _ & _ & _ & ?)] |].
  done.
Qed.

(** X4.  [validate] returns nil if and only if the document has an apps
    map, a kube context is determined (a context name in the settings or
    an ambient context), the cluster settings, the certificates and the
    hooks, webhook, eyaml, namespaces and repositories stanzas satisfy
    their conditions, and every release passes its own validator. *)
Theorem validate_Ok_iff (E : Env) (s : state) :
  (validate E s).2 = Ok ↔
  Apps s ≠ None
  ∧ (KubeContext (Settings s) ≠ "" ∨ getKubeContext E = true)
  ∧ clusterSettingsOk E (Settings s)
  ∧ certificatesOk E s
  ∧ stanzasOk E s
  ∧ checkApps E s (GoMap.range (Apps s)) ∅ = None.
Proof.
  rewrite validate_Ok_stages, checkKubeContext_None, checkCluster_None,
    checkCertificates_None, stanzas_None.
  assert (GoMap.is_nil (Apps s) = false ↔ Apps s ≠ None) as ->; [| done].
  by destruct (Apps s).
Qed.

(** A local cluster with a context name, a namespace, a repository and one
    release validates. *)
Lemma validate_Ok_iff_witness :
  (validate Example.host Scenario.localCluster).2 = Ok.
Proof.
  apply (validate_Ok_iff Example.host Scenario.localCluster).
  split; [done |]. split; [by left |].
  split. { split; [by intros H | by intros H]. }
  split. { split; [by intros key value H | by intros H]. }
  split; [| by vm_compute].
  split; [by intros H |]. split; [by intros H |]. split; [done |].
  split; [intros _; by vm_compute |].
  intros k v Hkv.
  assert (v = "https://charts.example.com/stable") as ->; [| by vm_compute].
  unfold GoMap.get in Hkv. simpl in Hkv.
  apply lookup_singleton_Some in Hkv as [_ <-]. done.
Defined.

(** X5.  [validate] hands the document back as it received it: the
    certificates stage writes every value back under its key, and the
    value written is the one read. *)
Theorem validate_keeps_document (E : Env) (s : state) :
  (validate E s).1 = s
  ∧ (checkCertificates E s).1 = s
  ∧ ∀ l certs, (∀ k v, (k, v) ∈ l → certs !! k = Some v) →
      (validateCertEntries E l certs).1 = certs.
Proof.
  split; [apply validate_state |]. split; [apply checkCertificates_state |].
  intros l certs. apply validateCertEntries_keeps.
Qed.

(** One valid entry: the loop hands the map back. *)
Lemma validate_keeps_document_witness :
  (validateCertEntries Example.host [("caCrt", "s3://certs/ca.crt")]
     {[ "caCrt" := "s3://certs/ca.crt" ]}).1
  = {[ "caCrt" := "s3://certs/ca.crt" ]}.
Proof.
  destruct (validate_keeps_document Example.host Example.blank)
    as (_ & _ & Hloop).
  apply Hloop. intros k v Hin.
  apply list_elem_of_singleton in Hin as [= -> ->].
  apply lookup_singleton_eq.
Defined.

(** X6.  The process exits inside [validate] only for a nil apps map, and
    only with status 0. *)
Theorem validate_exit_iff (E : Env) (s : state) (code : Z) :
  (validate E s).2 = Exit code ↔ Apps s = None ∧ code = 0%Z.
Proof.
  split.
  - unfold validate. destruct (Apps s) as [m |] eqn:Happs; simpl.
    + destruct (checkKubeContext E s); [done |].
      destruct (checkCluster E s); [done |].
      destruct (checkHooks E s); [done |].
      destruct (checkSlackWebhook E s); [done |].
      destruct (checkCertificates E s) as [s2 err].
      destruct err; [done |].
      destruct (checkEyaml s2); [done |].
      destruct (checkNamespaces E s2); [done |].
      destruct (checkRepos E _); [done |].
      by destruct (checkApps E s2 _ _).
    + intros [= <-]. done.
  - intros [Happs ->]. unfold validate. by rewrite Happs.
Qed.

(** A remote cluster without an apps stanza. *)
Lemma validate_exit_iff_witness :
  (validate Example.host Example.remoteNoApps).2 = Exit 0.
Proof.
  apply (validate_exit_iff Example.host Example.remoteNoApps 0). by split.
Defined.

(** X7.  The kube-context check looks at the context name and the ambient
    context only: it passes if and only if one of them is there, whatever
    the other settings are (the comparison of the whole settings with
    their zero value never decides).  When it fails on a document that has
    an apps map, its error is what [validate] returns, whatever the later
    stanzas contain; the same holds for the cluster settings once the
    kube-context check has passed. *)
Theorem validate_settings_first (E : Env) (s : state) :
  (checkKubeContext E s = None ↔
     KubeContext (Settings s) ≠ "" ∨ getKubeContext E = true)
  ∧ (Apps s ≠ None → KubeContext (Settings s) = "" → getKubeContext E = false →
     ∃ msg, checkKubeContext E s = Some msg ∧ validate E s = (s, Error msg))
  ∧ (Apps s ≠ None → checkKubeContext E s = None →
     ∀ msg, checkCluster E s = Some msg → validate E s = (s, Error msg)).
Proof.
  split; [apply checkKubeContext_None |]. split.
  - intros Happs Hk Hg.
    destruct (checkKubeContext E s) as [msg |] eqn:Hc.
    + exists msg. split; [done |]. unfold validate. rewrite Hc.
      by destruct (Apps s).
    + apply checkKubeContext_None in Hc as [? | ?]; [done | congruence].
  - intros Happs Hc msg Hcl. unfold validate. rewrite Hc, Hcl.
    by destruct (Apps s).
Qed.

(** An empty apps stanza and no context anywhere. *)
Lemma validate_settings_first_witness :
  ∃ msg, validate Example.host Example.emptyApps = (Example.emptyApps, Error msg).
Proof.
  destruct (validate_settings_first Example.host Example.emptyApps)
    as (_ & Hfail & _).
  destruct Hfail as (msg & _ & Hv); [done | done | done |].
  by exists msg.
Defined.

(** ** makeTargetMap: accumulation, composition, selectors as sets *)

(** The lookup of the target map, whatever order [range s.Apps] takes. *)
Lemma makeTargetMapIn_lookup visit s groups targets k :
  visit ≡ₚ GoMap.range (Apps s) →
  GoMap.get (TargetMap (makeTargetMapIn visit s groups targets)) k =
    if decide (k ∈ targets) then Some true
    else match GoMap.get (Apps s) k with
         | Some data =>
             if decide (Group data ∈ groups) then Some true
             else GoMap.get (TargetMap s) k
         | None => GoMap.get (TargetMap s) k
         end.
Proof.
  intros Hvisit. unfold makeTargetMapIn, GoMap.get. simpl.
  rewrite foldl_insert_true_lookup.
  destruct (decide (k ∈ targets)); [done |].
  set (groupMap := foldl (λ gm v, <[v := true]> gm) ∅ groups).
  assert (∀ acc k' a, selectByGroup groupMap acc (k', a) =
            match (match groupMap !! Group a with
                   | Some true => Some true | _ => None end) with
            | Some v => <[k' := v]> acc | None => acc end) as Hstep.
  { intros acc k' a. simpl. by destruct (groupMap !! Group a) as [[] |]. }
  rewrite (foldl_range_lookup _ _ Hstep (GoMap.entries (Apps s))) by done.
  assert (match TargetMap s with Some m => m | None => ∅ end
          = GoMap.entries (TargetMap s)) as -> by by destruct (TargetMap s).
  destruct (GoMap.entries (Apps s) !! k) as [data |]; [| done].
  unfold groupMap. rewrite foldl_insert_true_lookup.
  destruct (decide (Group data ∈ groups)); [done |].
  by rewrite lookup_empty.
Qed.

(** Two calls agree as soon as the documents agree outside the target map
    and the maps they build have the same lookups. *)
Lemma makeTargetMapIn_ext v1 v2 s1 s2 g1 n1 g2 n2 :
  withTargetMap None s1 = withTargetMap None s2 →
  (∀ k, GoMap.get (TargetMap (makeTargetMapIn v1 s1 g1 n1)) k
        = GoMap.get (TargetMap (makeTargetMapIn v2 s2 g2 n2)) k) →
  makeTargetMapIn v1 s1 g1 n1 = makeTargetMapIn v2 s2 g2 n2.
Proof.
  intros Hs Hk. unfold makeTargetMapIn in *.
  destruct s1, s2. simpl in *. injection Hs as -> -> -> -> -> -> -> -> ->.
  unfold withTargetMap. simpl. f_equal. f_equal. apply map_eq, Hk.
Qed.

(** X8.  [makeTargetMap] only adds: every key that was in the target map
    is still there, a true entry stays true, no false entry is written,
    the map is allocated afterwards, and nothing else in the document is
    touched. *)
Theorem makeTargetMap_accumulates (s : state) (groups names : list string) :
  let s1 := makeTargetMap s groups names in
  TargetMap s1 ≠ None
  ∧ withTargetMap None s1 = withTargetMap None s
  ∧ (∀ k, is_Some (GoMap.get (TargetMap s) k) →
          is_Some (GoMap.get (TargetMap s1) k))
  ∧ (∀ k, GoMap.get (TargetMap s) k = Some true →
          GoMap.get (TargetMap s1) k = Some true)
  ∧ (∀ k, GoMap.get (TargetMap s1) k = Some false →
          GoMap.get (TargetMap s) k = Some false).
Proof.
  intros s1. split; [done |]. split; [by destruct s |].
  assert (∀ k, GoMap.get (TargetMap s1) k = Some true
               ∨ GoMap.get (TargetMap s1) k = GoMap.get (TargetMap s) k) as Hk.
  { intros k. unfold s1. rewrite makeTargetMap_lookup.
    destruct (decide (k ∈ names)); [by left |].
    destruct (GoMap.get (Apps s) k) as [data |]; [| by right].
    destruct (decide (Group data ∈ groups)); [by left | by right]. }
  split; [| split].
  - intros k Hs. destruct (Hk k) as [-> | ->]; [by eexists | done].
  - intros k Hs. destruct (Hk k) as [-> | ->]; done.
  - intros k Hf. destruct (Hk k) as [Ht | <-]; [congruence | done].
Qed.

(** A second call with another selector keeps what the first selected. *)
Lemma makeTargetMap_accumulates_witness :
  let s := makeTargetMap Example.threeApps ["g1"] [] in
  GoMap.get (TargetMap s) "app1" = Some true
  ∧ GoMap.get (TargetMap (makeTargetMap s [] ["app3"])) "app1" = Some true.
Proof.
  intros s.
  assert (GoMap.get (TargetMap s) "app1" = Some true) as H1 by by vm_compute.
  split; [done |].
  destruct (makeTargetMap_accumulates s [] ["app3"]) as (_ & _ & _ & Hkeep & _).
  by apply Hkeep.
Defined.

(** X9.  Two calls in a row select what one call with the concatenated
    selectors selects. *)
Theorem makeTargetMap_compose (s : state) (g1 n1 g2 n2 : list string) :
  makeTargetMap (makeTargetMap s g1 n1) g2 n2
  = makeTargetMap s (g1 ++ g2) (n1 ++ n2).
Proof.
  apply (makeTargetMapIn_ext (GoMap.range (Apps s)) (GoMap.range (Apps s))).
  - by destruct s.
  - intros k.
    change (makeTargetMapIn (GoMap.range (Apps s)) (makeTargetMap s g1 n1) g2 n2)
      with (makeTargetMap (makeTargetMap s g1 n1) g2 n2).
    change (makeTargetMapIn (GoMap.range (Apps s)) s (g1 ++ g2) (n1 ++ n2))
      with (makeTargetMap s (g1 ++ g2) (n1 ++ n2)).
    rewrite !makeTargetMap_lookup.
    change (Apps (makeTargetMap s g1 n1)) with (Apps s).
    rewrite ?makeTargetMap_lookup.
    destruct (decide (k ∈ n2)) as [H2 | H2].
    { rewrite decide_True; [done |]. apply elem_of_app. by right. }
    destruct (GoMap.get (Apps s) k) as [data |].
    + destruct (decide (Group data ∈ g2)) as [G2 | G2].
      { destruct (decide (k ∈ (n1 ++ n2)%list)); [done |].
        rewrite decide_True; [done |]. apply elem_of_app. by right. }
      destruct (decide (k ∈ n1)) as [H1 | H1].
      { rewrite decide_True; [done |]. apply elem_of_app. by left. }
      rewrite (decide_False (P := k ∈ (n1 ++ n2)%list))
        by (rewrite elem_of_app; tauto).
      destruct (decide (Group data ∈ g1)) as [G1 | G1].
      * rewrite decide_True; [done |]. apply elem_of_app. by left.
      * by rewrite decide_False by (rewrite elem_of_app; tauto).
    + destruct (decide (k ∈ n1)) as [H1 | H1].
      * rewrite decide_True; [done |]. apply elem_of_app. by left.
      * by rewrite decide_False by (rewrite elem_of_app; tauto).
Qed.

(** X10.  The selectors count as sets: lists with the same members, in
    any order and with any repetition, select the same; in particular a
    call repeated with the same selectors changes nothing. *)
Theorem makeTargetMap_selectors_as_sets (s : state)
    (groups groups' names names' : list string) :
  ((∀ x, x ∈ groups ↔ x ∈ groups') → (∀ x, x ∈ names ↔ x ∈ names') →
   makeTargetMap s groups names = makeTargetMap s groups' names')
  ∧ makeTargetMap (makeTargetMap s groups names) groups names
    = makeTargetMap s groups names.
Proof.
  assert (∀ g g' n n', (∀ x, x ∈ g ↔ x ∈ g') → (∀ x, x ∈ n ↔ x ∈ n') →
            makeTargetMap s g n = makeTargetMap s g' n') as Hsets.
  { intros g g' n n' Hg Hn.
    apply (makeTargetMapIn_ext (GoMap.range (Apps s)) (GoMap.range (Apps s)));
      [done |].
    intros k. rewrite !makeTargetMapIn_lookup by done.
    destruct (decide (k ∈ n)) as [H | H], (decide (k ∈ n')) as [H' | H'];
      try done; try (by apply Hn in H); try (by apply Hn in H').
    destruct (GoMap.get (Apps s) k) as [data |]; [| done].
    destruct (decide (Group data ∈ g)) as [G | G],
             (decide (Group data ∈ g')) as [G' | G'];
      try done; try (by apply Hg in G); by apply Hg in G'. }
  split; [apply Hsets |].
  apply (makeTargetMapIn_ext (GoMap.range (Apps s)) (GoMap.range (Apps s)));
    [by destruct s |].
  intros k.
  change (makeTargetMapIn (GoMap.range (Apps s)) (makeTargetMap s groups names)
            groups names)
    with (makeTargetMap (makeTargetMap s groups names) groups names).
  change (makeTargetMapIn (GoMap.range (Apps s)) s groups names)
    with (makeTargetMap s groups names).
  rewrite (makeTargetMap_lookup (makeTargetMap s groups names)).
  change (Apps (makeTargetMap s groups names)) with (Apps s).
  rewrite makeTargetMap_lookup.
  destruct (decide (k ∈ names)); [done |].
  destruct (GoMap.get (Apps s) k) as [data |]; [| done].
  by destruct (decide (Group data ∈ groups)).
Qed.

(** The same selection written twice and in another order. *)
Lemma makeTargetMap_selectors_as_sets_witness :
  makeTargetMap Example.threeApps ["g1"; "g2"; "g1"] ["app3"; "app3"]
  = makeTargetMap Example.threeApps ["g2"; "g1"] ["app3"].
Proof.
  destruct (makeTargetMap_selectors_as_sets Example.threeApps
              ["g1"; "g2"; "g1"] ["g2"; "g1"] ["app3"; "app3"] ["app3"])
    as [Hsets _].
  apply Hsets; intros x; rewrite !elem_of_cons; tauto.
Defined.

(** ** Target resolution and the order of Go's map iteration *)

Lemma bool_eq_by_iff (b1 b2 : bool) (P : Prop) :
  (b1 = true ↔ P) → (b2 = true ↔ P) → b1 = b2.
Proof. destruct b1, b2; intros [? ?] [? ?]; try done; intuition congruence. Qed.

Lemma disableAppsIn_lookup visit s k :
  visit ≡ₚ GoMap.range (Apps s) →
  GoMap.get (disableAppsIn visit s).1 k =
    (λ r, if targeted s k then r else Disable r) <$> GoMap.get (Apps s) k.
Proof.
  unfold disableAppsIn, GoMap.get, GoMap.range, targeted.
  destruct (Apps s) as [m |]; simpl; [| by rewrite lookup_empty].
  intros Hvisit. set (tm := GoMap.entries (TargetMap s)).
  destruct (foldl (disableApp tm) (m, ∅) visit) as [apps nss] eqn:Hf.
  simpl. pose proof (disableApp_fold_apps tm visit m ∅) as Ha.
  rewrite Hf in Ha. cbn [fst] in Ha. rewrite Ha.
  assert (∀ acc k' a,
    (disableApp tm (acc, ∅) (k', a)).1 =
      match (if inUse tm k' then None else Some (Disable a)) with
      | Some v => <[k' := v]> acc | None => acc end) as Hstep.
  { intros acc k' a. simpl. by destruct (inUse tm k'). }
  rewrite (foldl_range_lookup _ _ Hstep m) by done.
  destruct (m !! k) as [r |]; simpl; [| done].
  by destruct (inUse tm k).
Qed.

Lemma disableAppsIn_collected visit s n :
  visit ≡ₚ GoMap.range (Apps s) →
  inUse (disableAppsIn visit s).2 n = true ↔ keptAlive s n.
Proof.
  unfold disableAppsIn, keptAlive, GoMap.get, GoMap.range, targeted.
  destruct (Apps s) as [m |]; simpl; intros Hvisit.
  - set (tm := GoMap.entries (TargetMap s)).
    destruct (foldl (disableApp tm) (m, ∅) visit) as [apps nss] eqn:Hf.
    simpl. pose proof (disableApp_fold_namespaces tm visit m ∅) as Hn.
    rewrite Hf in Hn. cbn [snd] in Hn. rewrite Hn, collected_inUse.
    split.
    + intros [H | (k & app & Hin & Hu & Hns)]; [done |].
      exists k, app. rewrite Hvisit in Hin.
      by apply elem_of_map_to_list in Hin.
    + intros (k & app & Hin & Hu & Hns). right.
      exists k, app. rewrite Hvisit. by apply elem_of_map_to_list in Hin.
  - split; [done |]. intros (k & app & H & _). by rewrite lookup_empty in H.
Qed.

Lemma disableAppsIn_nil visit s :
  GoMap.is_nil (disableAppsIn visit s).1 = GoMap.is_nil (Apps s).
Proof.
  unfold disableAppsIn. destruct (Apps s) as [m |]; [| done].
  by destruct (foldl _ _ _).
Qed.

Lemma disableNamespacesIn_lookup visit namespaces m n :
  visit ≡ₚ GoMap.range m →
  GoMap.get (disableNamespacesIn visit namespaces m) n =
    (λ ns, if inUse namespaces n then ns else nsDisable ns) <$> GoMap.get m n.
Proof.
  unfold disableNamespacesIn, GoMap.get, GoMap.range.
  destruct m as [m |]; simpl; [| by rewrite lookup_empty].
  intros Hvisit.
  assert (∀ acc k' a,
    disableNs namespaces acc (k', a) =
      match (if inUse namespaces k' then None else Some (nsDisable a)) with
      | Some v => <[k' := v]> acc | None => acc end) as Hstep.
  { intros acc k' a. simpl. by destruct (inUse namespaces k'). }
  rewrite (foldl_range_lookup _ _ Hstep m) by done.
  destruct (m !! n) as [ns |]; simpl; [| done].
  by destruct (inUse namespaces n).
Qed.

(** The function under given visiting orders, field by field. *)
Lemma disableUntargettedAppsIn_unfold va vn s :
  GoMap.len (TargetMap s) ≠ 0 →
  disableUntargettedAppsIn va vn s =
    withNamespaces (disableNamespacesIn vn (disableAppsIn va s).2 (Namespaces s))
      (withApps (disableAppsIn va s).1 s).
Proof.
  intros H. unfold disableUntargettedAppsIn.
  rewrite decide_False by done. by destruct (disableAppsIn va s).
Qed.

(** X11.  The order in which Go's [range] visits the releases and the
    namespaces does not show in the result of target resolution: for
    every visiting order [makeTargetMap] builds the same map and
    [disableUntargettedApps] leaves the same document. *)
Theorem target_resolution_order_free (s : state) (groups names : list string)
    (visitApps : list (string * release))
    (visitNs : list (string * namespace)) :
  visitApps ≡ₚ GoMap.range (Apps s) →
  visitNs ≡ₚ GoMap.range (Namespaces s) →
  makeTargetMapIn visitApps s groups names = makeTargetMap s groups names
  ∧ disableUntargettedAppsIn visitApps visitNs s = disableUntargettedApps s.
Proof.
  intros Hva Hvn. split.
  - apply makeTargetMapIn_ext; [done |]. intros k.
    by rewrite !makeTargetMapIn_lookup.
  - destruct (decide (GoMap.len (TargetMap s) = 0)) as [Hlen | Hlen].
    { unfold disableUntargettedAppsIn, disableUntargettedApps.
      by rewrite !decide_True. }
    rewrite disableUntargettedAppsIn_unfold, disableUntargettedApps_unfold
      by done.
    assert ((disableAppsIn visitApps s).1 = (disableApps s).1) as ->.
    { apply GoMap_eq.
      - rewrite disableAppsIn_nil. unfold disableApps.
        destruct (Apps s) as [m |]; [| done]. by destruct (foldl _ _ _).
      - intros k. by rewrite disableAppsIn_lookup, disableApps_lookup. }
    f_equal. apply GoMap_eq.
    + unfold disableNamespacesIn, disableNamespaces. by destruct (Namespaces s).
    + intros n. rewrite disableNamespacesIn_lookup, disableNamespaces_lookup
        by done.
      rewrite (bool_eq_by_iff (inUse (disableAppsIn visitApps s).2 n)
                 (inUse (disableApps s).2 n) (keptAlive s n)); [done | |].
      * by apply disableAppsIn_collected.
      * apply disableApps_collected.
Qed.

(** The three releases visited backwards. *)
Lemma target_resolution_order_free_witness :
  let s := makeTargetMap Example.threeApps ["g1"] ["app3"] in
  disableUntargettedAppsIn (reverse (GoMap.range (Apps s)))
    (reverse (GoMap.range (Namespaces s))) s
  = disableUntargettedApps s.
Proof.
  intros s.
  apply (target_resolution_order_free s [] []
           (reverse (GoMap.range (Apps s)))
           (reverse (GoMap.range (Namespaces s))));
    apply reverse_Permutation.
Defined.

(** ** disableUntargettedApps: what it keeps *)

Lemma disableApps_is_nil s :
  GoMap.is_nil (disableApps s).1 = GoMap.is_nil (Apps s).
Proof.
  unfold disableApps. destruct (Apps s) as [m |]; [| done].
  by destruct (foldl _ _ _).
Qed.

Lemma targeted_same_map s1 s2 k :
  TargetMap s1 = TargetMap s2 → targeted s1 k = targeted s2 k.
Proof. unfold targeted. by intros ->. Qed.

Lemma disableUntargettedApps_len_0 s :
  GoMap.len (TargetMap s) = 0 → disableUntargettedApps s = s.
Proof. intros H. unfold disableUntargettedApps. by rewrite decide_True. Qed.

(** No namespace is added or removed. *)
Lemma disableUntargettedApps_namespaces_None s n :
  GoMap.get (Namespaces (disableUntargettedApps s)) n = None
  ↔ GoMap.get (Namespaces s) n = None.
Proof.
  destruct (decide (GoMap.len (TargetMap s) = 0)) as [Hlen | Hlen].
  { by rewrite disableUntargettedApps_len_0. }
  destruct (disableUntargettedApps_lookups s Hlen) as [_ Hnss].
  rewrite Hnss. by destruct (GoMap.get (Namespaces s) n).
Qed.

Lemma setDefaults_namespaces E s penv :
  Namespaces (setDefaults E s penv).1 = Namespaces s.
Proof.
  destruct s as [md certs c ctx nss repos pre apps tmpl tm].
  unfold setDefaults. simpl.
  destruct (decide (StorageBackend c ≠ "")); simpl;
    destruct (decide (ctx = "")); done.
Qed.

(** X12.  [disableUntargettedApps] only disables.  Whatever the target
    map is, the fields other than the apps and the namespaces are
    untouched, no release and no namespace is added or removed, and every
    release and namespace comes back either as it was or disabled; what is
    enabled afterwards was enabled before and has not been changed. *)
Theorem disableUntargettedApps_only_disables (s : state) :
  let s' := disableUntargettedApps s in
  withNamespaces None (withApps None s') = withNamespaces None (withApps None s)
  ∧ GoMap.is_nil (Apps s') = GoMap.is_nil (Apps s)
  ∧ GoMap.is_nil (Namespaces s') = GoMap.is_nil (Namespaces s)
  ∧ (∀ k, GoMap.get (Apps s') k = None ↔ GoMap.get (Apps s) k = None)
  ∧ (∀ n, GoMap.get (Namespaces s') n = None ↔ GoMap.get (Namespaces s) n = None)
  ∧ (∀ k r', GoMap.get (Apps s') k = Some r' →
       ∃ r, GoMap.get (Apps s) k = Some r ∧ (r' = r ∨ r' = Disable r)
            ∧ (Enabled r' = true → r' = r))
  ∧ (∀ n ns', GoMap.get (Namespaces s') n = Some ns' →
       ∃ ns, GoMap.get (Namespaces s) n = Some ns
             ∧ (ns' = ns ∨ ns' = nsDisable ns)
             ∧ (nsDisabled ns' = false → ns' = ns)).
Proof.
  intros s'. unfold s'.
  destruct (decide (GoMap.len (TargetMap s) = 0)) as [Hlen | Hlen].
  { rewrite disableUntargettedApps_len_0 by done.
    repeat (split; [done |]). split.
    - intros k r' Hr. exists r'. split; [done |]. split; [by left | done].
    - intros n ns' Hn. exists ns'. split; [done |]. split; [by left | done]. }
  destruct (disableUntargettedApps_lookups s Hlen) as [Happs Hnss].
  rewrite disableUntargettedApps_unfold by done.
  rewrite disableUntargettedApps_unfold in Happs, Hnss by done.
  split; [by destruct s |]. split; [apply disableApps_is_nil |].
  split; [simpl; unfold disableNamespaces; by destruct (Namespaces s) |].
  split; [| split; [| split]].
  - intros k. rewrite Happs. by destruct (GoMap.get (Apps s) k).
  - intros n. rewrite Hnss. by destruct (GoMap.get (Namespaces s) n).
  - intros k r'. rewrite Happs.
    destruct (GoMap.get (Apps s) k) as [r |]; [| done]. simpl.
    intros [= <-]. exists r. split; [done |].
    destruct (targeted s k); [split; [by left | done] |].
    split; [by right | done].
  - intros n ns'. rewrite Hnss.
    destruct (GoMap.get (Namespaces s) n) as [ns |]; [| done]. simpl.
    intros [= <-]. exists ns. split; [done |].
    destruct (inUse (disableApps s).2 n); [split; [by left | done] |].
    split; [by right | done].
Qed.

(** In the three-release example app2 comes back disabled and app1 as it
    was. *)
Lemma disableUntargettedApps_only_disables_witness :
  let s := makeTargetMap Example.threeApps ["g1"] ["app3"] in
  (∃ r, GoMap.get (Apps s) "app2" = Some r
        ∧ GoMap.get (Apps (disableUntargettedApps s)) "app2" = Some (Disable r))
  ∧ ∃ r, GoMap.get (Apps s) "app1" = Some r
         ∧ GoMap.get (Apps (disableUntargettedApps s)) "app1" = Some r.
Proof.
  intros s.
  destruct (disableUntargettedApps_only_disables s)
    as (_ & _ & _ & _ & _ & Hrel & _).
  split.
  - destruct (Hrel "app2" (Disable (Example.app "ns2" "g2" "ghost/api" "2.0")))
      as (r & Hr & [Heq | Heq] & _); [by vm_compute | |].
    + assert (Enabled r = false) as He by by rewrite <- Heq.
      assert (Enabled r = true) as He'.
      { revert Hr. change (Apps s) with (Apps Example.threeApps).
        intros Hr. vm_compute in Hr. by injection Hr as <-. }
      congruence.
    + exists r. split; [done |]. rewrite <- Heq. by vm_compute.
  - destruct (Hrel "app1" (Example.app "ns1" "g1" "stable/redis" "1.0"))
      as (r & Hr & _ & Hen); [by vm_compute |].
    exists r. split; [done |]. rewrite <- (Hen eq_refl). by vm_compute.
Defined.

(** X13.  [disableUntargettedApps] is idempotent: a second pass over the
    document it returned changes nothing. *)
Theorem disableUntargettedApps_idempotent (s : state) :
  disableUntargettedApps (disableUntargettedApps s) = disableUntargettedApps s.
Proof.
  destruct (decide (GoMap.len (TargetMap s) = 0)) as [Hlen | Hlen].
  { rewrite (disableUntargettedApps_len_0 s Hlen).
    by apply disableUntargettedApps_len_0. }
  set (s' := disableUntargettedApps s).
  assert (TargetMap s' = TargetMap s) as Htm.
  { unfold s'. rewrite disableUntargettedApps_unfold by done. done. }
  assert (GoMap.len (TargetMap s') ≠ 0) as Hlen' by by rewrite Htm.
  destruct (disableUntargettedApps_lookups s Hlen) as [Happs Hnss].
  fold s' in Happs, Hnss.
  assert (∀ n, keptAlive s' n ↔ keptAlive s n) as Hkept.
  { intros n. unfold keptAlive. split.
    - intros (app & r' & Hr' & Ht & Hn). rewrite Happs in Hr'.
      destruct (GoMap.get (Apps s) app) as [r |] eqn:Hr; [| done].
      simpl in Hr'. rewrite (targeted_same_map s' s app Htm) in Ht.
      rewrite Ht in Hr'. injection Hr' as <-. by exists app, r.
    - intros (app & r & Hr & Ht & Hn). exists app, r.
      rewrite Happs, Hr. simpl. rewrite Ht.
      by rewrite (targeted_same_map s' s app Htm). }
  assert ((disableApps s').1 = Apps s') as HA.
  { apply GoMap_eq; [apply disableApps_is_nil |].
    intros k. rewrite disableApps_lookup, Happs.
    rewrite (targeted_same_map s' s k Htm).
    destruct (GoMap.get (Apps s) k) as [r |]; [| done]. simpl.
    by destruct (targeted s k). }
  assert (disableNamespaces (disableApps s').2 (Namespaces s') = Namespaces s')
    as HN.
  { apply GoMap_eq.
    - unfold disableNamespaces. by destruct (Namespaces s').
    - intros n. rewrite disableNamespaces_lookup, Hnss.
      rewrite (bool_eq_by_iff (inUse (disableApps s').2 n)
                 (inUse (disableApps s).2 n) (keptAlive s n)).
      + destruct (GoMap.get (Namespaces s) n) as [ns |]; [| done]. simpl.
        by destruct (inUse (disableApps s).2 n).
      + rewrite <- Hkept. apply disableApps_collected.
      + apply disableApps_collected. }
  rewrite (disableUntargettedApps_unfold s') by done.
  rewrite HA. change (Namespaces (withApps (Apps s') s')) with (Namespaces s').
  unfold withNamespaces, withApps in *. simpl in *. rewrite HN. by destruct s'.
Qed.

(** X14.  Target resolution, the defaults and the namespace override never
    change which namespaces are defined. *)
Theorem isNamespaceDefined_stable (E : Env) (s : state) (penv : processEnv)
    (groups names : list string) (newNs ns : string) :
  isNamespaceDefined (makeTargetMap s groups names) ns = isNamespaceDefined s ns
  ∧ isNamespaceDefined (disableUntargettedApps s) ns = isNamespaceDefined s ns
  ∧ isNamespaceDefined (setDefaults E s penv).1 ns = isNamespaceDefined s ns
  ∧ isNamespaceDefined (overrideAppsNamespace s newNs) ns
    = isNamespaceDefined s ns.
Proof.
  split; [done |]. split; [| split; [| done]].
  - unfold isNamespaceDefined. apply bool_decide_ext.
    rewrite <- !not_eq_None_Some.
    by rewrite disableUntargettedApps_namespaces_None.
  - unfold isNamespaceDefined. by rewrite setDefaults_namespaces.
Qed.

(** X15.  Without any selector nothing is disabled: on a document whose
    target map is empty, [makeTargetMap] with no group and no name followed
    by [disableUntargettedApps] returns the document with its target map
    allocated and empty, and nothing else changed. *)
Theorem empty_selectors_disable_nothing (s : state) :
  GoMap.len (TargetMap s) = 0 →
  disableUntargettedApps (makeTargetMap s [] []) = withTargetMap (Some ∅) s.
Proof.
  intros Hlen.
  assert (makeTargetMap s [] [] = withTargetMap (Some ∅) s) as ->.
  { unfold makeTargetMap. cbn [foldl].
    assert (foldl (selectByGroup ∅) match TargetMap s with
                                     | Some m => m | None => ∅ end
              (GoMap.range (Apps s)) = ∅) as ->; [| done].
    assert (match TargetMap s with Some m => m | None => ∅ end = ∅) as ->.
    { unfold GoMap.len, GoMap.entries in Hlen.
      destruct (TargetMap s) as [m |]; [| done]. simpl in Hlen.
      by apply map_size_empty_iff. }
    induction (GoMap.range (Apps s)) as [| [k r] l IH]; [done |].
    cbn [foldl]. unfold selectByGroup at 2. by rewrite lookup_empty. }
  unfold disableUntargettedApps. by rewrite decide_True.
Qed.

(** The three-release example, no selector given. *)
Lemma empty_selectors_disable_nothing_witness :
  GoMap.len (TargetMap Example.threeApps) = 0
  ∧ Apps (disableUntargettedApps (makeTargetMap Example.threeApps [] []))
    = Apps Example.threeApps
  ∧ Namespaces (disableUntargettedApps (makeTargetMap Example.threeApps [] []))
    = Namespaces Example.threeApps.
Proof.
  assert (GoMap.len (TargetMap Example.threeApps) = 0) as Hlen by by vm_compute.
  split; [done |].
  by rewrite (empty_selectors_disable_nothing Example.threeApps Hlen).
Defined.

(** ** validateReleaseCharts: empty runs, agreement of executions *)

Lemma tasks_running {E s} (run : chartsRun E s) a c v :
  (a, c, v) ∈ tasks run →
  ∃ app r, GoMap.get (Apps s) app = Some r ∧ runsWith c v (app, r).
Proof.
  intros Hin. apply elem_of_tasks in Hin as (apps & _ & Hne & ->).
  destruct (runningWith (visit run) c v) as [| app apps] eqn:Hr; [done |].
  assert (app ∈ runningWith (visit run) c v) as Happ by (rewrite Hr; by left).
  apply elem_of_running in Happ as (r & Hget & Hrun). by exists app, r.
Qed.

Lemma running_tasks {E s} (run : chartsRun E s) app r c v :
  GoMap.get (Apps s) app = Some r → runsWith c v (app, r) →
  (Join (runningWith (visit run) c v) ", ", c, v) ∈ tasks run.
Proof.
  intros Hget Hrun. apply elem_of_tasks. eexists. split; [done |].
  split; [| done].
  assert (app ∈ runningWith (visit run) c v) as Hin.
  { apply elem_of_running. by exists r. }
  intros Hnil. rewrite Hnil in Hin. by apply elem_of_nil in Hin.
Qed.

Lemma runResult_cases {E s} (run : chartsRun E s) :
  runResult run = Some "chart validation failed" ∨ runResult run = None.
Proof.
  unfold runResult, chartsResult. destruct (drain (queue run)); [by left | by right].
Qed.

Lemma runResult_eq_by_iff {E s} (run1 run2 : chartsRun E s) :
  ((∃ t, t ∈ tasks run1 ∧ runTask E t ≠ "")
   ↔ (∃ t, t ∈ tasks run2 ∧ runTask E t ≠ "")) →
  runResult run1 = runResult run2.
Proof.
  intros Hiff. rewrite <- !runResult_failed in Hiff.
  destruct (runResult_cases run1) as [H1 | H1],
           (runResult_cases run2) as [H2 | H2]; rewrite ?H1, ?H2; try done.
  - apply Hiff in H1. congruence.
  - apply Hiff in H2. congruence.
Qed.

(** X16.  When no release of the document is considered to run (in
    particular when there is no release at all) no probe is launched, the
    result channel stays empty and the function returns nil, in every
    execution. *)
Theorem validateReleaseCharts_nothing_to_probe (E : Env) (s : state) :
  (∀ app r, GoMap.get (Apps s) app = Some r → isConsideredToRun r = false) →
  (∀ run : chartsRun E s,
     tasks run = [] ∧ queue run = [] ∧ runResult run = None)
  ∧ validateReleaseCharts E s = None.
Proof.
  intros Hnone.
  assert (∀ run : chartsRun E s,
            tasks run = [] ∧ queue run = [] ∧ runResult run = None) as Hruns.
  { intros run.
    assert (tasks run = []) as Ht.
    { destruct (tasks run) as [| [[a c] v] l] eqn:Hl; [done |].
      assert ((a, c, v) ∈ tasks run) as Hin by (rewrite Hl; by left).
      apply tasks_running in Hin as (app & r & Hget & Hrun & _).
      apply Hnone in Hget. simpl in Hrun. congruence. }
    assert (queue run = []) as Hq.
    { apply Permutation_nil_r. rewrite (queue_order _ _ run), Ht. done. }
    split; [done |]. split; [done |].
    unfold runResult. by rewrite Hq. }
  split; [done |]. apply (Hruns (canonicalRun E s)).
Qed.

(** All three releases of the example disabled by a name nobody carries. *)
Lemma validateReleaseCharts_nothing_to_probe_witness :
  validateReleaseCharts Example.host
    (disableUntargettedApps (makeTargetMap Example.threeApps [] ["nope"]))
  = None.
Proof.
  apply (validateReleaseCharts_nothing_to_probe Example.host
           (disableUntargettedApps (makeTargetMap Example.threeApps [] ["nope"]))).
  intros app r Hr.
  assert (GoMap.len (TargetMap (makeTargetMap Example.threeApps [] ["nope"])) ≠ 0)
    as Hlen by by vm_compute.
  destruct (disableUntargettedApps_lookups _ Hlen) as [Happs _].
  rewrite Happs in Hr.
  destruct (GoMap.get (Apps (makeTargetMap Example.threeApps [] ["nope"])) app)
    as [r0 |] eqn:Hr0; [| done].
  simpl in Hr.
  assert (targeted (makeTargetMap Example.threeApps [] ["nope"]) app = false)
    as Ht.
  { apply targeted_false. left. rewrite makeTargetMap_lookup.
    destruct (decide (app ∈ ["nope"])) as [Hin | _].
    - apply list_elem_of_singleton in Hin as ->. by vm_compute in Hr0.
    - change (Apps (makeTargetMap Example.threeApps [] ["nope"]))
        with (Apps Example.threeApps) in Hr0.
      rewrite Hr0. rewrite decide_False by apply not_elem_of_nil. done. }
  rewrite Ht in Hr. by injection Hr as <-.
Defined.

(** X17.  The order in which the probes are launched and the order in
    which their strings arrive never change the result: two executions
    that visit the releases in the same order return the same.  When the
    verdict of a probe does not depend on the release names it is given,
    all executions return the same, which is then the value of
    [validateReleaseCharts]. *)
Theorem validateReleaseCharts_runs_agree (E : Env) (s : state) :
  (∀ run1 run2 : chartsRun E s,
     visit run1 = visit run2 → runResult run1 = runResult run2)
  ∧ ((∀ a a' c v, validateChart E a c v = "" ↔ validateChart E a' c v = "") →
     ∀ run : chartsRun E s, runResult run = validateReleaseCharts E s).
Proof.
  split.
  - intros run1 run2 Hv. apply runResult_eq_by_iff.
    assert (tasks run1 ≡ₚ tasks run2) as Hp.
    { by rewrite (tasks_order _ _ run1), (tasks_order _ _ run2), Hv. }
    split; intros (t & Hin & Hne); exists t; split; try done.
    + by rewrite <- Hp.
    + by rewrite Hp.
  - intros Hnames.
    assert (∀ run1 run2 : chartsRun E s,
              (∃ t, t ∈ tasks run1 ∧ runTask E t ≠ "") →
              (∃ t, t ∈ tasks run2 ∧ runTask E t ≠ "")) as Hmove.
    { intros run1 run2 ([[a c] v] & Hin & Hne).
      apply tasks_running in Hin as (app & r & Hget & Hrun).
      exists (Join (runningWith (visit run2) c v) ", ", c, v).
      split; [by eapply running_tasks |].
      simpl in *. intros Hempty. apply Hne. by eapply Hnames. }
    intros run.
    change (validateReleaseCharts E s) with (runResult (canonicalRun E s)).
    apply runResult_eq_by_iff. split; apply Hmove.
Qed.

(** The probe of the example looks at the chart only: the execution with
    every order reversed returns what [validateReleaseCharts] computes. *)
Lemma validateReleaseCharts_runs_agree_witness :
  runResult Scenario.reversedRun
  = validateReleaseCharts Example.host Example.threeApps.
Proof.
  destruct (validateReleaseCharts_runs_agree Example.host Example.threeApps)
    as [_ Hall].
  apply Hall.
  intros a a' c v. simpl. unfold Example.probe.
  destruct (HasPrefix c "ghost/"); [| done].
  split; intros H; exfalso; revert H; clear; simpl;
    by destruct c.
Defined.

(** ** Target resolution followed by chart validation *)

(** X18.  After target resolution with a non-empty target map, a chart is
    probed only on behalf of releases that are targeted and were enabled
    in the document: the chart of a release outside the target map is not
    probed unless a targeted release uses the same chart and version. *)
Theorem probes_after_target_resolution (E : Env) (s : state) :
  GoMap.len (TargetMap s) ≠ 0 →
  ∀ (run : chartsRun E (disableUntargettedApps s)) a c v,
    (a, c, v) ∈ tasks run →
    ∃ app r, GoMap.get (Apps s) app = Some r ∧ targeted s app = true
             ∧ Enabled r = true ∧ Chart r = c ∧ Version r = v.
Proof.
  intros Hlen run a c v Hin.
  apply tasks_running in Hin as (app & r' & Hget & Hrun & Hc & Hv).
  destruct (disableUntargettedApps_lookups s Hlen) as [Happs _].
  rewrite Happs in Hget.
  destruct (GoMap.get (Apps s) app) as [r |] eqn:Hr; [| done].
  simpl in Hget, Hrun, Hc, Hv. exists app, r.
  destruct (targeted s app); injection Hget as <-; [done | done].
Qed.

(** In the three-release example with app1 and app3 targeted, the probe
    of the redis chart is launched on behalf of a targeted release. *)
Lemma probes_after_target_resolution_witness :
  let s := makeTargetMap Example.threeApps ["g1"] ["app3"] in
  GoMap.len (TargetMap s) ≠ 0
  ∧ ∃ app r, GoMap.get (Apps s) app = Some r ∧ targeted s app = true
             ∧ Enabled r = true ∧ Chart r = "stable/redis" ∧ Version r = "1.0".
Proof.
  intros s.
  assert (GoMap.len (TargetMap s) ≠ 0) as Hlen by by vm_compute.
  split; [done |].
  apply (probes_after_target_resolution Example.host s Hlen
           (canonicalRun Example.host (disableUntargettedApps s)) "app1").
  apply (bool_decide_unpack _). by vm_compute.
Defined.

(** ** overrideAppsNamespace *)

(** X19.  [overrideAppsNamespace] moves every release to the given
    namespace and touches nothing else; target resolution after it, when
    some declared release is targeted, keeps that namespace if it is
    defined and disables every other namespace of the document. *)
Theorem overrideAppsNamespace_cascade (s : state) (newNs : string) :
  let s1 := overrideAppsNamespace s newNs in
  withApps None s1 = withApps None s
  ∧ (∀ k, GoMap.get (Apps s1) k = withNamespace newNs <$> GoMap.get (Apps s) k)
  ∧ (GoMap.len (TargetMap s) ≠ 0 →
     (∃ app, is_Some (GoMap.get (Apps s) app) ∧ targeted s app = true) →
     ∀ n ns, GoMap.get (Namespaces s) n = Some ns →
       GoMap.get (Namespaces (disableUntargettedApps s1)) n
         = Some (if decide (n = newNs) then ns else nsDisable ns)).
Proof.
  intros s1.
  assert (∀ k, GoMap.get (Apps s1) k = withNamespace newNs <$> GoMap.get (Apps s) k)
    as Happs.
  { intros k. unfold s1, overrideAppsNamespace. simpl.
    by rewrite GoMap_get_rangeUpdate. }
  split; [by destruct s |]. split; [done |].
  intros Hlen (app & [r Hr] & Ht) n ns Hns.
  assert (GoMap.len (TargetMap s1) ≠ 0) as Hlen1 by done.
  destruct (disableUntargettedApps_lookups s1 Hlen1) as [_ Hnss].
  rewrite Hnss. change (Namespaces s1) with (Namespaces s). rewrite Hns. simpl.
  f_equal.
  rewrite (bool_eq_by_iff (inUse (disableApps s1).2 n)
             (bool_decide (n = newNs)) (keptAlive s1 n)).
  - by destruct (decide (n = newNs)) as [-> | Hne];
      [rewrite bool_decide_eq_true_2 | rewrite bool_decide_eq_false_2].
  - apply disableApps_collected.
  - rewrite bool_decide_eq_true. unfold keptAlive. split.
    + intros ->. exists app, (withNamespace newNs r).
      rewrite Happs, Hr. done.
    + intros (app' & r' & Hr' & _ & Hn). rewrite Happs in Hr'.
      destruct (GoMap.get (Apps s) app') as [r0 |]; [| done].
      simpl in Hr'. injection Hr' as <-. done.
Qed.

(** The three-release example moved to ns1, app3 alone targeted. *)
Lemma overrideAppsNamespace_cascade_witness :
  let s := makeTargetMap Example.threeApps [] ["app3"] in
  let s2 := disableUntargettedApps (overrideAppsNamespace s "ns1") in
  GoMap.get (Namespaces s2) "ns1" = Some (mkNamespace false)
  ∧ GoMap.get (Namespaces s2) "ns3" = Some (nsDisable (mkNamespace false)).
Proof.
  intros s s2.
  destruct (overrideAppsNamespace_cascade s "ns1") as (_ & _ & Hcascade).
  assert (GoMap.len (TargetMap s) ≠ 0) as Hlen by by vm_compute.
  assert (∃ app, is_Some (GoMap.get (Apps s) app) ∧ targeted s app = true)
    as Hsome.
  { exists "app3". split; [by eexists; vm_compute | by vm_compute]. }
  split.
  - by apply (Hcascade Hlen Hsome "ns1" (mkNamespace false)).
  - by apply (Hcascade Hlen Hsome "ns3" (mkNamespace false)).
Defined.
